(** * Verification of the risk-simulation verifier harness

    A shallow embedding of [scripts/run_verifier.py]: the Black-Scholes
    oracle, the realised-statistics estimator, the empirical VaR comparator,
    the engine invocation adapter and the convergence sweep.

    Number model.  A Python [float] is a value of [float] below: a finite
    double is represented by the real number it denotes, next to the two
    infinities and not-a-number.  The rounding of a finite result to 53
    bits and the sign of zero are outside the model, except where rounding
    selects an order statistic ([np_quantile_higher]).  The range of binary64
    is enforced where the program's behaviour depends on it: quotients,
    [math.exp] and the conversion of integers overflow and underflow; sums
    and products are exact.  The propagation of infinities and NaN, the
    comparisons with NaN, and the exceptions of the [math] module and of
    float division follow Python and NumPy. *)

From Stdlib Require Import Reals Lra Lia ZArith Arith Factorial.
From Stdlib Require Import String Ascii Bool List.
From Stdlib Require Import Sorting.Sorted Sorting.Permutation.
From Stdlib Require Import Zfloor DecimalString.
Import ListNotations.

Local Open Scope R_scope.

(* ================================================================== *)
(** * The error function, as the sum of its Maclaurin series *)
(* ================================================================== *)

Module Erf.

(** erf x = 2/sqrt(pi) * sum_n (-1)^n x^(2n+1) / (n! (2n+1)). *)
Definition erf_n (n : nat) : R := (-1) ^ n / (INR (fact n) * INR (2 * n + 1)).

Lemma erf_n_neq_0 : forall n, erf_n n <> 0.
Proof.
  intro n. unfold erf_n.
  assert (H1 : (-1) ^ n <> 0) by (apply pow_nonzero; lra).
  assert (H2 : INR (fact n) <> 0) by apply INR_fact_neq_0.
  assert (H3 : INR (2 * n + 1) <> 0) by (apply not_0_INR; lia).
  unfold Rdiv. apply Rmult_integral_contrapositive_currified; auto.
  apply Rinv_neq_0_compat. apply Rmult_integral_contrapositive_currified; auto.
Qed.

Lemma erf_n_ratio : forall n,
  Rabs (erf_n (S n) / erf_n n) = INR (2 * n + 1) / (INR (S n) * INR (2 * n + 3)).
Proof.
  intro n. unfold erf_n.
  assert (H1 : (-1) ^ n <> 0) by (apply pow_nonzero; lra).
  assert (H2 : INR (fact n) <> 0) by apply INR_fact_neq_0.
  assert (H3 : 0 < INR (2 * n + 1)) by (apply lt_0_INR; lia).
  assert (H4 : 0 < INR (2 * n + 3)) by (apply lt_0_INR; lia).
  assert (H5 : 0 < INR (S n)) by (apply lt_0_INR; lia).
  replace (2 * S n + 1)%nat with (2 * n + 3)%nat by lia.
  rewrite fact_simpl, mult_INR. simpl pow.
  replace (-1 * (-1) ^ n / (INR (S n) * INR (fact n) * INR (2 * n + 3)) /
           ((-1) ^ n / (INR (fact n) * INR (2 * n + 1))))
    with (- (INR (2 * n + 1) / (INR (S n) * INR (2 * n + 3)))).
  - rewrite Rabs_Ropp. apply Rabs_pos_eq.
    apply Rlt_le, Rdiv_lt_0_compat; [lra | apply Rmult_lt_0_compat; lra].
  - field. repeat split; lra.
Qed.

Lemma Alembert_erf : Un_cv (fun n => Rabs (erf_n (S n) / erf_n n)) 0.
Proof.
  intros eps Heps.
  destruct (archimed_cor1 eps Heps) as [N [HN HN0]].
  exists N. intros n Hn. unfold Rdist.
  rewrite erf_n_ratio.
  assert (H3 : 0 < INR (2 * n + 1)) by (apply lt_0_INR; lia).
  assert (H5 : 0 < INR (S n)) by (apply lt_0_INR; lia).
  assert (HNpos : 0 < INR N) by (apply lt_0_INR; lia).
  assert (Hle : INR (2 * n + 1) / (INR (S n) * INR (2 * n + 3)) <= / INR N).
  { replace (INR (2 * n + 3)) with (INR (2 * n + 1) + 2)
      by (rewrite !plus_INR; simpl; lra).
    assert (HNn : INR N <= INR (S n)) by (apply le_INR; lia).
    apply Rle_trans with (/ INR (S n)).
    - apply Rmult_le_reg_r with (INR (S n) * (INR (2 * n + 1) + 2)).
      + apply Rmult_lt_0_compat; lra.
      + unfold Rdiv.
        rewrite Rmult_assoc, Rinv_l
          by (apply Rgt_not_eq, Rmult_lt_0_compat; lra).
        rewrite <- Rmult_assoc, Rinv_l by lra. lra.
    - apply Rinv_le_contravar; lra. }
  assert (Hpos : 0 <= INR (2 * n + 1) / (INR (S n) * INR (2 * n + 3))).
  { apply Rlt_le, Rdiv_lt_0_compat; [lra|].
    apply Rmult_lt_0_compat; [lra | apply lt_0_INR; lia]. }
  rewrite Rminus_0_r, Rabs_pos_eq by exact Hpos. lra.
Qed.

Definition erf_in (x l : R) : Prop := infinite_sum (fun i => erf_n i * x ^ i) l.

Lemma exist_erf : forall x, { l : R | erf_in x l }.
Proof.
  intro x. exact (Alembert_C3 erf_n x erf_n_neq_0 Alembert_erf).
Defined.

Definition erf (x : R) : R :=
  let (a, _) := exist_erf (Rsqr x) in 2 / sqrt PI * (x * a).

Lemma erf_odd : forall x, erf (- x) = - erf x.
Proof.
  intro x. unfold erf. rewrite <- Rsqr_neg.
  destruct (exist_erf (Rsqr x)) as [a _]. ring.
Qed.

Lemma erf_0 : erf 0 = 0.
Proof. unfold erf. destruct (exist_erf (Rsqr 0)) as [a _]. ring. Qed.

End Erf.

(* ================================================================== *)
(** * Binary64 rounding on the reals *)
(* ================================================================== *)

Module Binary64.

Definition pow2 (e : Z) : R := powerRZ 2 e.

(** The binade of a positive real: [pow2 (ex x) <= x < pow2 (ex x + 1)]. *)
Definition ex (x : R) : Z := Zfloor (ln x / ln 2).

(** Rounding to the nearest integer, ties to even. *)
Definition rne (t : R) : Z :=
  let f := Zfloor t in
  if Rlt_dec (t - IZR f) (1 / 2) then f
  else if Rlt_dec (1 / 2) (t - IZR f) then (f + 1)%Z
  else if Z.even f then f else (f + 1)%Z.

(** Rounding of a positive real to the nearest binary64 number: 53
    significant bits, exponents down to the subnormal spacing 2^-1074. *)
Definition round_pos (x : R) : R :=
  let k := Z.max (ex x - 52) (-1074) in
  IZR (rne (x / pow2 k)) * pow2 k.

Definition round64 (x : R) : R :=
  if Rlt_dec 0 x then round_pos x
  else if Rlt_dec x 0 then - round_pos (- x)
  else 0.

End Binary64.

(* ================================================================== *)
(** * Exceptions and the result monad *)
(* ================================================================== *)

Inductive exn : Type :=
| ZeroDivisionError
| ValueError
| KeyError (key : string)
| TypeError
| AttributeError
| OSError
| JSONDecodeError
| IndexError
| OverflowError
| RuntimeError (msg : string)
| SystemExit (msg : string).

Inductive result (A : Type) : Type :=
| Ok (a : A)
| Raise (e : exn).
Arguments Ok {A} a.
Arguments Raise {A} e.

Definition rbind {A B} (m : result A) (k : A -> result B) : result B :=
  match m with
  | Ok a => k a
  | Raise e => Raise e
  end.

Declare Scope result_scope.
Delimit Scope result_scope with result.
Notation "x <- m ;; k" := (rbind m (fun x => k))
  (at level 61, m at next level, right associativity) : result_scope.

(* ================================================================== *)
(** * Python floats *)
(* ================================================================== *)

Module PyFloat.

Inductive float : Type :=
| Fin (x : R)
| Inf (negative : bool)
| NaN.

Abbreviation PInf := (Inf false).
Abbreviation NInf := (Inf true).

Definition Rleb (x y : R) : bool := if Rle_dec x y then true else false.
Definition Rltb (x y : R) : bool := if Rlt_dec x y then true else false.
Definition Reqb (x y : R) : bool := if Req_dec_T x y then true else false.

Lemma Rleb_true x y : x <= y -> Rleb x y = true.
Proof. unfold Rleb. destruct (Rle_dec x y); tauto. Qed.
Lemma Rleb_false x y : y < x -> Rleb x y = false.
Proof. unfold Rleb. destruct (Rle_dec x y); auto. lra. Qed.
Lemma Rltb_true x y : x < y -> Rltb x y = true.
Proof. unfold Rltb. destruct (Rlt_dec x y); tauto. Qed.
Lemma Rltb_false x y : y <= x -> Rltb x y = false.
Proof. unfold Rltb. destruct (Rlt_dec x y); auto. lra. Qed.
Lemma Reqb_true x y : x = y -> Reqb x y = true.
Proof. unfold Reqb. destruct (Req_dec_T x y); tauto. Qed.
Lemma Reqb_false x y : x <> y -> Reqb x y = false.
Proof. unfold Reqb. destruct (Req_dec_T x y); tauto. Qed.
Lemma Rleb_spec x y : Rleb x y = true <-> x <= y.
Proof. unfold Rleb. destruct (Rle_dec x y); split; auto; discriminate. Qed.
Lemma Rltb_spec x y : Rltb x y = true <-> x < y.
Proof. unfold Rltb. destruct (Rlt_dec x y); split; auto; discriminate. Qed.
Lemma Reqb_spec x y : Reqb x y = true <-> x = y.
Proof. unfold Reqb. destruct (Req_dec_T x y); split; auto; discriminate. Qed.

(** ** The range of binary64

    A quotient, an exponential or a converted integer of magnitude
    2^1024 - 2^970 or more rounds to an infinity; one of magnitude 2^-1075 or
    less rounds to zero. *)

Definition DBL_OVERFLOW : R := Binary64.pow2 1024 - Binary64.pow2 970.
Definition DBL_TINY : R := Binary64.pow2 (-1075).

Definition fnorm (x : R) : float :=
  if Rleb DBL_OVERFLOW (Rabs x) then Inf (Rltb x 0)
  else if Rleb (Rabs x) DBL_TINY then Fin 0
  else Fin x.

(** The reals that [fnorm] leaves alone. *)
Definition representable (x : R) : Prop :=
  Rabs x < DBL_OVERFLOW /\ (x = 0 \/ DBL_TINY < Rabs x).

(** ** Comparisons: every comparison with NaN is false, except [!=]. *)

Definition fle (a b : float) : bool :=
  match a, b with
  | NaN, _ | _, NaN => false
  | Fin x, Fin y => Rleb x y
  | Inf true, _ => true
  | _, Inf false => true
  | Inf false, _ => false
  | Fin _, Inf true => false
  end.

Definition flt (a b : float) : bool :=
  match a, b with
  | NaN, _ | _, NaN => false
  | Fin x, Fin y => Rltb x y
  | Inf true, Inf true => false
  | Inf true, _ => true
  | Inf false, _ => false
  | Fin _, Inf s => negb s
  end.

Definition feq (a b : float) : bool :=
  match a, b with
  | Fin x, Fin y => Reqb x y
  | Inf s, Inf t => Bool.eqb s t
  | _, _ => false
  end.

(** Python's [a != b]. *)
Definition fne (a b : float) : bool := negb (feq a b).

Definition isnan (a : float) : bool :=
  match a with NaN => true | _ => false end.

(** ** Arithmetic that never raises: [-a], [a + b], [a - b], [a * b]. *)

Definition fneg (a : float) : float :=
  match a with
  | Fin x => Fin (- x)
  | Inf s => Inf (negb s)
  | NaN => NaN
  end.

Definition fadd (a b : float) : float :=
  match a, b with
  | NaN, _ | _, NaN => NaN
  | Fin x, Fin y => Fin (x + y)
  | Fin _, Inf s => Inf s
  | Inf s, Fin _ => Inf s
  | Inf s, Inf t => if Bool.eqb s t then Inf s else NaN
  end.

Definition fsub (a b : float) : float := fadd a (fneg b).

Definition fmul (a b : float) : float :=
  match a, b with
  | NaN, _ | _, NaN => NaN
  | Fin x, Fin y => Fin (x * y)
  | Fin x, Inf s => if Reqb x 0 then NaN else Inf (xorb (Rltb x 0) s)
  | Inf s, Fin y => if Reqb y 0 then NaN else Inf (xorb s (Rltb y 0))
  | Inf s, Inf t => Inf (xorb s t)
  end.

(** IEEE division, as NumPy and pandas perform it: a zero divisor gives an
    infinity or NaN (the zero is taken as +0), and a quotient outside the
    range of binary64 overflows to an infinity or underflows to zero. *)
Definition fdiv_ieee (a b : float) : float :=
  match a, b with
  | NaN, _ | _, NaN => NaN
  | Fin x, Fin y =>
      if Reqb y 0 then (if Reqb x 0 then NaN else Inf (Rltb x 0))
      else fnorm (x / y)
  | Fin _, Inf _ => Fin 0
  | Inf s, Fin y => Inf (xorb s (Rltb y 0))
  | Inf _, Inf _ => NaN
  end.

(** Python's [a / b] on floats raises on a zero divisor. *)
Definition py_truediv (a b : float) : result float :=
  if feq b (Fin 0) then Raise ZeroDivisionError else Ok (fdiv_ieee a b).

(** Python's [max(a, b)]: the first argument is kept unless the second is
    strictly greater. *)
Definition py_max (a b : float) : float := if flt a b then b else a.

(** ** The [math] module *)

Definition math_sqrt (a : float) : result float :=
  match a with
  | Fin x => if Rltb x 0 then Raise ValueError else Ok (Fin (sqrt x))
  | Inf false => Ok PInf
  | Inf true => Raise ValueError
  | NaN => Ok NaN
  end.

Definition math_log (a : float) : result float :=
  match a with
  | Fin x => if Rleb x 0 then Raise ValueError else Ok (Fin (ln x))
  | Inf false => Ok PInf
  | Inf true => Raise ValueError
  | NaN => Ok NaN
  end.

(** [math.exp] raises OverflowError where the exponential leaves the range
    of binary64 (arguments above about 709.78), and underflows to zero. *)
Definition math_exp (a : float) : result float :=
  match a with
  | Fin x => if Rleb DBL_OVERFLOW (exp x) then Raise OverflowError
             else Ok (fnorm (exp x))
  | Inf false => Ok PInf
  | Inf true => Ok (Fin 0)
  | NaN => Ok NaN
  end.

Definition math_erf (a : float) : float :=
  match a with
  | Fin x => Fin (Erf.erf x)
  | Inf false => Fin 1
  | Inf true => Fin (-1)
  | NaN => NaN
  end.

(** ** NumPy's element-wise functions, which return NaN where [math] raises *)

Definition np_log (a : float) : float :=
  match a with
  | Fin x => if Rltb x 0 then NaN else if Reqb x 0 then NInf else Fin (ln x)
  | Inf false => PInf
  | Inf true => NaN
  | NaN => NaN
  end.

Definition np_sqrt (a : float) : float :=
  match a with
  | Fin x => if Rltb x 0 then NaN else Fin (sqrt x)
  | Inf false => PInf
  | Inf true => NaN
  | NaN => NaN
  end.

End PyFloat.
Import PyFloat.

Local Open Scope result_scope.

(* ================================================================== *)
(** * The analytic pricing oracle *)
(* ================================================================== *)

(** The nested helper [norm_cdf] of [black_scholes_price]. *)
Definition norm_cdf (x : float) : result float :=
  s2 <- math_sqrt (Fin 2.0) ;;
  z <- py_truediv x s2 ;;
  Ok (fmul (Fin 0.5) (fadd (Fin 1.0) (math_erf z))).

Definition black_scholes_price
    (spot strike rate dividend vol maturity : float) (is_call : bool)
  : result float :=
  if fle maturity (Fin 0) || fle vol (Fin 0) then
    let intrinsic :=
      if is_call then py_max (Fin 0.0) (fsub spot strike)
      else py_max (Fin 0.0) (fsub strike spot) in
    Ok intrinsic
  else
    sqrt_t <- math_sqrt maturity ;;
    let sigma_sqrt_t := fmul vol sqrt_t in
    ratio <- py_truediv spot strike ;;
    log_ratio <- math_log ratio ;;
    d1 <- py_truediv
            (fadd log_ratio
               (fmul (fadd (fsub rate dividend) (fmul (fmul (Fin 0.5) vol) vol))
                     maturity))
            sigma_sqrt_t ;;
    let d2 := fsub d1 sigma_sqrt_t in
    disc_rate <- math_exp (fmul (fneg rate) maturity) ;;
    disc_div <- math_exp (fmul (fneg dividend) maturity) ;;
    if is_call then
      n1 <- norm_cdf d1 ;;
      n2 <- norm_cdf d2 ;;
      Ok (fsub (fmul (fmul spot disc_div) n1) (fmul (fmul strike disc_rate) n2))
    else
      n2 <- norm_cdf (fneg d2) ;;
      n1 <- norm_cdf (fneg d1) ;;
      Ok (fsub (fmul (fmul strike disc_rate) n2) (fmul (fmul spot disc_div) n1)).


(** ** The closed form on real numbers

    d1, d2 and the standard normal distribution function, as the
    non-degenerate path computes them on finite arguments. *)

Definition bs_d1 (S K r q sigma T : R) : R :=
  (ln (S / K) + (r - q + 0.5 * sigma * sigma) * T) / (sigma * sqrt T).

Definition bs_d2 (S K r q sigma T : R) : R :=
  bs_d1 S K r q sigma T - sigma * sqrt T.

Definition Phi (x : R) : R := 0.5 * (1.0 + Erf.erf (x / sqrt 2.0)).

(** No intermediate quantity of the closed form leaves the range of
    binary64: nothing overflows, and nothing but an exact zero underflows. *)
Definition closed_form_in_range (S K r q sigma T : R) : Prop :=
  representable (S / K) /\
  representable (sigma * sqrt T) /\
  representable (0.5 * sigma * sigma) /\
  representable ((r - q + 0.5 * sigma * sigma) * T) /\
  representable (bs_d1 S K r q sigma T) /\
  representable (exp (- r * T)) /\
  representable (exp (- q * T)) /\
  representable (S * exp (- q * T)) /\
  representable (K * exp (- r * T)).

(* ================================================================== *)
(** * The realised-statistics estimator *)
(* ================================================================== *)

(** The data frame is represented by its ["close"] column, a list of floats
    in row order.  The pandas operations used by [realised_statistics]
    follow. *)

(** [Series.shift(1)]: every value moves one row down, the first row
    becomes NaN and the last value is dropped. *)
Definition shift1 (s : list float) : list float :=
  match s with
  | [] => []
  | _ :: _ => NaN :: removelast s
  end.

Fixpoint zip_with {A B C : Type} (f : A -> B -> C) (l1 : list A) (l2 : list B)
  : list C :=
  match l1, l2 with
  | a :: l1', b :: l2' => f a b :: zip_with f l1' l2'
  | _, _ => []
  end.

(** Row-wise division of two series on the same index. *)
Definition series_div (a b : list float) : list float := zip_with fdiv_ieee a b.

(** [Series.dropna()]: infinities are kept, NaN rows are removed. *)
Definition dropna (s : list float) : list float :=
  filter (fun x => negb (isnan x)) s.

Definition fsum (s : list float) : float := fold_left fadd s (Fin 0).

(** [Series.mean()], skipping NaN; NaN on an empty series. *)
Definition series_mean (s : list float) : float :=
  let values := dropna s in
  let count := length values in
  if (count =? 0)%nat then NaN
  else fdiv_ieee (fsum values) (Fin (INR count)).

(** [Series.std(ddof)], skipping NaN: NaN unless more than [ddof] values
    remain; otherwise the root of the squared deviations from the average,
    summed and divided by [count - ddof]. *)
Definition series_std (ddof : nat) (s : list float) : float :=
  let values := dropna s in
  let count := length values in
  if (count <=? ddof)%nat then NaN
  else
    let avg := fdiv_ieee (fsum values) (Fin (INR count)) in
    let sqr := map (fun x => let d := fsub avg x in fmul d d) values in
    np_sqrt (fdiv_ieee (fsum sqr) (Fin (INR (count - ddof)))).

Definition realised_statistics (close : list float) : result (float * float) :=
  let returns := dropna (map np_log (series_div close (shift1 close))) in
  let mu := fmul (series_mean returns) (Fin 252.0) in
  s252 <- math_sqrt (Fin 252.0) ;;
  let sigma := fmul (series_std 1 returns) s252 in
  Ok (mu, sigma).

(** ** The statistics the specification names, on real numbers *)

Fixpoint log_returns_from (prev : R) (closes : list R) : list R :=
  match closes with
  | [] => []
  | c :: rest => ln (c / prev) :: log_returns_from c rest
  end.

(** r_i = ln (close_i / close_(i-1)) for consecutive closes. *)
Definition log_returns (closes : list R) : list R :=
  match closes with
  | [] => []
  | c0 :: rest => log_returns_from c0 rest
  end.

Definition Rsum (l : list R) : R := fold_right Rplus 0 l.

Definition sample_mean (l : list R) : R := Rsum l / INR (length l).

(** Sample standard deviation with Bessel's correction (divisor m - 1 for
    m samples). *)
Definition bessel_std (l : list R) : R :=
  sqrt (Rsum (map (fun r => Rsqr (r - sample_mean l)) l) / (INR (length l) - 1)).

(** The quotients close_i / close_(i-1) of consecutive closes. *)
Fixpoint ratios_from (prev : R) (closes : list R) : list R :=
  match closes with
  | [] => []
  | c :: rest => c / prev :: ratios_from c rest
  end.

Definition consecutive_ratios (closes : list R) : list R :=
  match closes with
  | [] => []
  | c0 :: rest => ratios_from c0 rest
  end.

(** The quotient under the root of [bessel_std]. *)
Definition bessel_variance (l : list R) : R :=
  Rsum (map (fun r => Rsqr (r - sample_mean l)) l) / (INR (length l) - 1).

(** None of the quotients the estimator forms leaves the range of binary64:
    the ratios of consecutive closes, the mean of the log returns and their
    variance neither overflow nor underflow. *)
Definition statistics_in_range (closes : list R) : Prop :=
  Forall representable (consecutive_ratios closes) /\
  representable (sample_mean (log_returns closes)) /\
  representable (bessel_variance (log_returns closes)).

(** The same quotient and root in float arithmetic, where the zero divisor
    of a single sample gives NaN instead of a number. *)
Definition bessel_std_float (l : list R) : float :=
  np_sqrt (fdiv_ieee (Fin (Rsum (map (fun r => Rsqr (r - sample_mean l)) l)))
                     (Fin (INR (length l) - 1))).

(* ================================================================== *)
(** * The empirical risk comparator *)
(* ================================================================== *)

(** The order of [np.sort] on floats: the usual order, with NaN last. *)
Definition np_leb (a b : float) : bool :=
  match a, b with
  | _, NaN => true
  | NaN, _ => false
  | _, _ => fle a b
  end.

Fixpoint np_insert (x : float) (l : list float) : list float :=
  match l with
  | [] => [x]
  | y :: l' => if np_leb x y then x :: l else y :: np_insert x l'
  end.

Fixpoint np_sort (l : list float) : list float :=
  match l with
  | [] => []
  | x :: l' => np_insert x (np_sort l')
  end.

(** The index NumPy's method "higher" reads: ceil((n - 1) * q), where [q]
    stands for the binary64 number nearest to it and the product is a
    binary64 product, rounded before the ceiling is taken. *)
Definition virtual_index_higher (n : nat) (q : R) : Z :=
  Zceil (Binary64.round64 (INR (n - 1) * Binary64.round64 q)).

(** [np.quantile(arr, q, method="higher")] on a one-dimensional array and a
    scalar [q]: a quantile outside [0, 1] (NaN included) is rejected; an array
    holding a NaN gives NaN; otherwise the result is the element of the sorted
    array at index [virtual_index_higher].  NumPy's result on an empty array is
    not modelled ([compare_var] returns before the call). *)
Definition np_quantile_higher (arr : list float) (q : float) : result float :=
  match q with
  | Fin p =>
      if Rleb 0 p && Rleb p 1 then
        if existsb isnan arr then Ok NaN
        else
          Ok (nth (Z.to_nat (virtual_index_higher (length arr) p)) (np_sort arr) NaN)
      else Raise ValueError
  | _ => Raise ValueError
  end.

Definition compare_var (empirical_losses : list float) (percentile simulated : float)
  : result (float * float) :=
  if (length empirical_losses =? 0)%nat then Ok (NaN, NaN)
  else
    empirical_var <- np_quantile_higher empirical_losses percentile ;;
    let diff := fsub simulated empirical_var in
    rel <- (if fne empirical_var (Fin 0) then py_truediv diff empirical_var
            else Ok PInf) ;;
    Ok (empirical_var, rel).

(** ** The linearly interpolated quantile, on real numbers

    The specification describes the rule of [compare_var] relative to the
    linearly interpolated quantile: with the sorted sample s and the
    fractional rank h = (n - 1) p, it is s[floor h] + (h - floor h) *
    (s[floor h + 1] - s[floor h]). *)

Fixpoint Rinsert (x : R) (l : list R) : list R :=
  match l with
  | [] => [x]
  | y :: l' => if Rleb x y then x :: l else y :: Rinsert x l'
  end.

Fixpoint Rsort (l : list R) : list R :=
  match l with
  | [] => []
  | x :: l' => Rinsert x (Rsort l')
  end.

Definition linear_quantile (sample : list R) (p : R) : R :=
  let s := Rsort sample in
  let h := INR (length sample - 1) * p in
  let lo := Z.to_nat (Zfloor h) in
  let hi := Nat.min (lo + 1) (length sample - 1) in
  nth lo s 0 + (h - IZR (Zfloor h)) * (nth hi s 0 - nth lo s 0).

(** A computation that ends in an exception. *)
Definition raises {A : Type} (m : result A) : Prop := exists e, m = Raise e.

(* ================================================================== *)
(** * Engine requests and responses *)
(* ================================================================== *)

Local Open Scope string_scope.

(** The values a request dictionary holds: [float | int | bool | str]. *)
Inductive value : Type :=
| VFloat (f : float)
| VInt (z : Z)
| VBool (b : bool)
| VStr (s : string).

(** A request dictionary, in insertion order (the order of the flags on the
    command line). *)
Definition payload : Type := list (string * value).

Fixpoint dict_get (d : payload) (key : string) : option value :=
  match d with
  | [] => None
  | (k, v) :: d' => if String.eqb k key then Some v else dict_get d' key
  end.

(** [d[key] = v]: an existing key keeps its position, a new key goes last. *)
Fixpoint dict_set (d : payload) (key : string) (v : value) : payload :=
  match d with
  | [] => [(key, v)]
  | (k, v') :: d' =>
      if String.eqb k key then (k, v) :: d' else (k, v') :: dict_set d' key v
  end.

(** A parsed JSON document. *)
#[warnings="-register-all"]
Inductive json : Type :=
| JNull
| JBool (b : bool)
| JInt (z : Z)
| JFloat (f : float)
| JStr (s : string)
| JList (items : list json)
| JDict (fields : list (string * json)).

Fixpoint fields_get (fields : list (string * json)) (key : string) : option json :=
  match fields with
  | [] => None
  | (k, v) :: rest => if String.eqb k key then Some v else fields_get rest key
  end.

(** [j[key]] with a string key. *)
Definition json_getitem (j : json) (key : string) : result json :=
  match j with
  | JDict fields =>
      match fields_get fields key with
      | Some v => Ok v
      | None => Raise (KeyError key)
      end
  | _ => Raise TypeError
  end.

(** [j.get(key, default)]. *)
Definition json_get (j : json) (key : string) (default : json) : result json :=
  match j with
  | JDict fields =>
      match fields_get fields key with
      | Some v => Ok v
      | None => Ok default
      end
  | _ => Raise AttributeError
  end.

Definition str_of_Z (z : Z) : string := NilZero.string_of_int (Z.to_int z).

(** Python's [a or b] on strings. *)
Definition str_or (a b : string) : string :=
  match a with
  | EmptyString => b
  | String _ _ => a
  end.

(** [sub in s]. *)
Definition str_contains (sub s : string) : Prop :=
  exists pre post : string, s = pre ++ sub ++ post.

(** What [subprocess.run(..., capture_output=True, text=True)] returns. *)
Record CompletedProcess : Type := {
  returncode : Z;
  stdout : string;
  stderr : string
}.

(** The command-line arguments of [main] that the checks read. *)
Record Namespace : Type := {
  args_strike : option float;
  args_maturity : float;
  args_rate : float;
  args_dividend : float;
  args_paths : Z;
  args_notional : float;
  args_percentile : float;
  args_binary : string;
  args_stress_runs : Z
}.

(** One line of the convergence report. *)
Record SweepPoint : Type := {
  sweep_paths : Z;
  sweep_price : float;
  sweep_stderr : float
}.

Section Engine.

(** The outside world: the file system and the engine process, the JSON
    parser, and the conversions between floats and text, none of which is
    code of the harness. *)
Variable World : Type.
Variable path_exists : string -> World -> bool.
Variable subprocess_run : list string -> World -> result CompletedProcess * World.
Variable json_loads : string -> result json.
Variable float_repr : float -> string.
Variable float_of_str : string -> option float.

(** The state threaded through the harness: the world, and the command
    lines handed to [subprocess.run] so far, oldest first. *)
Record state : Type := {
  world : World;
  invocations : list (list string)
}.

Definition M (A : Type) : Type := state -> result A * state.

Definition ret {A} (a : A) : M A := fun st => (Ok a, st).

Definition bind {A B} (m : M A) (k : A -> M B) : M B :=
  fun st =>
    match m st with
    | (Ok a, st') => k a st'
    | (Raise e, st') => (Raise e, st')
    end.

Definition raise {A} (e : exn) : M A := fun st => (Raise e, st).

Definition lift {A} (r : result A) : M A := fun st => (r, st).

Definition binary_exists (binary : string) : M bool :=
  fun st => (Ok (path_exists binary (world st)), st).

Definition subprocess (cli : list string) : M CompletedProcess :=
  fun st =>
    let (r, w) := subprocess_run cli (world st) in
    (r, {| world := w; invocations := invocations st ++ [cli] |}).

Declare Scope M_scope.
Delimit Scope M_scope with M.
Notation "x <- m ;; k" := (bind m (fun x => k))
  (at level 61, m at next level, right associativity) : M_scope.

(** [str(value)] inside an f-string. *)
Definition str_of_value (v : value) : string :=
  match v with
  | VFloat f => float_repr f
  | VInt z => str_of_Z z
  | VBool b => if b then "True" else "False"
  | VStr s => s
  end.

(** [float(x)] on a parsed JSON value; an integer too large for binary64
    raises OverflowError. *)
Definition py_float (j : json) : result float :=
  match j with
  | JInt z => if Rleb DBL_OVERFLOW (Rabs (IZR z)) then Raise OverflowError
              else Ok (Fin (IZR z))
  | JFloat f => Ok f
  | JBool b => Ok (Fin (if b then 1 else 0))
  | JStr s =>
      match float_of_str s with
      | Some f => Ok f
      | None => Raise ValueError
      end
  | JNull | JList _ | JDict _ => Raise TypeError
  end.

Definition flag (key : string) (v : value) : string :=
  "--" ++ key ++ "=" ++ str_of_value v.

(** The argument vector [run_risk_sim] builds. *)
Definition build_cli (binary command : string) (args : payload) : list string :=
  [binary; command] ++ map (fun kv => flag (fst kv) (snd kv)) args
    ++ ["--format=json"].

Definition run_risk_sim (binary command : string) (args : payload) : M json :=
  (present <- binary_exists binary ;;
   if negb present then
     raise (SystemExit ("risk_sim binary not found at " ++ binary
                        ++ ". Build the project first."))
   else
     let cli := build_cli binary command args in
     result <- subprocess cli ;;
     if negb (returncode result =? 0)%Z then
       raise (RuntimeError ("risk_sim failed (" ++ command ++ "): "
                            ++ str_or (stderr result) (stdout result)))
     else lift (json_loads (stdout result)))%M.

(** ** The checks of [main] *)

(** [float(response["result"]["price"])]. *)
Definition response_price (response : json) : result float :=
  (r <- json_getitem response "result" ;;
   p <- json_getitem r "price" ;;
   py_float p)%result.

(** [float(response["result"].get("standardError", 0.0))]. *)
Definition response_std_err (response : json) : result float :=
  (r <- json_getitem response "result" ;;
   e <- json_get r "standardError" (JFloat (Fin 0.0)) ;;
   py_float e)%result.

Definition option_payload (args : Namespace) (spot strike sigma : float) : payload :=
  [ ("spot", VFloat spot);
    ("strike", VFloat strike);
    ("rate", VFloat (args_rate args));
    ("dividend", VFloat (args_dividend args));
    ("vol", VFloat sigma);
    ("maturity", VFloat (args_maturity args));
    ("steps", VInt 252);
    ("paths", VInt (args_paths args));
    ("seed", VInt 42);
    ("antithetic", VStr "true");
    ("control", VStr "true");
    ("block", VInt 4096);
    ("type", VStr "call") ].

(** [diff = mc_price - analytic] and
    [rel_err = diff / analytic if analytic != 0 else float("inf")]. *)
Definition option_relative_error (mc_price analytic : float) : result (float * float) :=
  (let diff := fsub mc_price analytic in
   rel_err <- (if fne analytic (Fin 0) then py_truediv diff analytic
               else Ok PInf) ;;
   Ok (diff, rel_err))%result.

(** The option-pricing check; the report lines it prints are left out. *)
Definition option_pricing_check (args : Namespace) (spot strike sigma : float)
  : M (float * float * float * float) :=
  (option_response <-
     run_risk_sim (args_binary args) "option" (option_payload args spot strike sigma) ;;
   mc_price <- lift (response_price option_response) ;;
   mc_std_err <- lift (response_std_err option_response) ;;
   analytic <- lift (black_scholes_price spot strike (args_rate args)
                       (args_dividend args) sigma (args_maturity args) true) ;;
   dr <- lift (option_relative_error mc_price analytic) ;;
   ret (mc_price, mc_std_err, analytic, snd dr))%M.

Definition var_payload (args : Namespace) (spot sigma : float) : payload :=
  [ ("spot", VFloat spot);
    ("rate", VFloat (args_rate args));
    ("vol", VFloat sigma);
    ("maturity", VFloat (Fin 1.0));
    ("steps", VInt 252);
    ("paths", VInt (args_paths args));
    ("seed", VInt 1337);
    ("antithetic", VStr "true");
    ("control", VStr "false");
    ("block", VInt 4096);
    ("percentile", VFloat (args_percentile args));
    ("notional", VFloat (args_notional args)) ].

(** [pnl = -notional * log(close[1:] / close[:-1])]. *)
Definition realised_losses (notional : float) (close : list float) : list float :=
  let returns := map np_log (zip_with fdiv_ieee (tl close) (removelast close)) in
  map (fmul (fneg notional)) returns.

(** The value-at-risk check; the report lines it prints are left out. *)
Definition var_check (args : Namespace) (close : list float) (spot sigma : float)
  : M (float * float * float) :=
  (let pnl := realised_losses (args_notional args) close in
   var_response <- run_risk_sim (args_binary args) "var" (var_payload args spot sigma) ;;
   simulated_var <- lift (r <- json_getitem var_response "result" ;;
                          v <- json_getitem r "valueAtRisk" ;;
                          py_float v)%result ;;
   er <- lift (compare_var pnl (args_percentile args) simulated_var) ;;
   ret (simulated_var, fst er, snd er))%M.

(** [range(n)]. *)
Definition py_range (n : Z) : list Z := map Z.of_nat (seq 0 (Z.to_nat n)).

(** The request of sweep iteration [i]: a copy of the base request with
    ["paths"] and ["seed"] overwritten. *)
Definition sweep_payload (args : Namespace) (option_payload : payload) (i : Z)
  : payload :=
  let paths := (args_paths args * (i + 1))%Z in
  let sweep_payload := option_payload in
  let sweep_payload := dict_set sweep_payload "paths" (VInt paths) in
  let sweep_payload := dict_set sweep_payload "seed" (VInt (100 + i)) in
  sweep_payload.

(** The body of the sweep loop over the remaining indices; the first error
    ends the loop.  The printed lines are returned as sweep points. *)
Fixpoint sweep_loop (args : Namespace) (option_payload : payload) (indices : list Z)
  : M (list SweepPoint) :=
  match indices with
  | [] => ret []
  | i :: rest =>
      (response <- run_risk_sim (args_binary args) "option"
                     (sweep_payload args option_payload i) ;;
       price <- lift (response_price response) ;;
       stderr <- lift (response_std_err response) ;;
       points <- sweep_loop args option_payload rest ;;
       ret ({| sweep_paths := args_paths args * (i + 1);
               sweep_price := price;
               sweep_stderr := stderr |} :: points))%M
  end.

Definition convergence_sweep (args : Namespace) (option_payload : payload)
  : M (list SweepPoint) :=
  if (0 <? args_stress_runs args)%Z
  then sweep_loop args option_payload (py_range (args_stress_runs args))
  else ret [].

(** [history["close"].iloc[-1]]. *)
Definition last_close (close : list float) : result float :=
  match close with
  | [] => Raise IndexError
  | _ :: _ => Ok (last close NaN)
  end.

(** [main], from the parsed arguments and the downloaded close prices to
    the end of the sweep. *)
Definition main (args : Namespace) (close : list float) : M (list SweepPoint) :=
  (spot <- lift (last_close close) ;;
   let strike := match args_strike args with Some k => k | None => spot end in
   stats <- lift (realised_statistics close) ;;
   let sigma := snd stats in
   _ <- option_pricing_check args spot strike sigma ;;
   _ <- var_check args close spot sigma ;;
   convergence_sweep args (option_payload args spot strike sigma))%M.

End Engine.

Arguments world {World} s.
Arguments invocations {World} s.

(** The flags of a command line that set the sample count or the seed. *)
Definition paths_and_seed (cli : list string) : list string :=
  filter (fun a => String.prefix "--paths=" a || String.prefix "--seed=" a) cli.

(** ** Stand-ins for the outside world, used to run the harness on examples *)

Module Fake.

(** An engine that exits with status 0 and prints a document the JSON
    stand-in reads as a price of 10 with standard error 0.1. *)
Definition engine_ok (cli : list string) (w : unit) : result CompletedProcess * unit :=
  (Ok {| returncode := 0; stdout := "{}"; stderr := "" |}, w).

(** An engine that exits with the given status and streams. *)
Definition engine_exit (code : Z) (out err : string)
    (cli : list string) (w : unit) : result CompletedProcess * unit :=
  (Ok {| returncode := code; stdout := out; stderr := err |}, w).

Definition path_exists (path : string) (w : unit) : bool := true.

Definition json_loads (text : string) : result json :=
  Ok (JDict [("result", JDict [("price", JFloat (Fin 10));
                               ("standardError", JFloat (Fin 0.1))])]).

Definition float_repr (f : float) : string := "0.0".

Definition float_of_str (s : string) : option float := None.

Definition init : state unit := {| world := tt; invocations := [] |}.

Definition args (paths stress_runs : Z) : Namespace :=
  {| args_strike := None;
     args_maturity := Fin 1.0;
     args_rate := Fin 0.02;
     args_dividend := Fin 0.01;
     args_paths := paths;
     args_notional := Fin 1000000.0;
     args_percentile := Fin 0.99;
     args_binary := "build/risk_sim";
     args_stress_runs := stress_runs |}.

End Fake.

(* ================================================================== *)
(** * Auxiliary notions for the further properties *)
(* ================================================================== *)

(** NumPy's check of a quantile: inside [0, 1], which NaN is not. *)
Definition quantile_is_valid (q : float) : bool :=
  fle (Fin 0) q && fle q (Fin 1).

(** The order of [np.sort] as a relation. *)
Definition np_le (a b : float) : Prop := np_leb a b = true.

(** The volatility [main] passes on: the second component of the
    estimator's result. *)
Definition realised_sigma (close : list float) : float :=
  match realised_statistics close with
  | Ok stats => snd stats
  | Raise _ => NaN
  end.

(** The strike [main] uses: the override, or the spot when there is none. *)
Definition main_strike (args : Namespace) (spot : float) : float :=
  match args_strike args with
  | Some k => k
  | None => spot
  end.

(** The command lines of a complete run of [main], in order: the option
    request, the value-at-risk request, and the requests of the sweep. *)
Definition main_command_lines (float_repr : float -> string)
    (args : Namespace) (close : list float) : list (list string) :=
  let spot := last close NaN in
  let strike := main_strike args spot in
  let sigma := realised_sigma close in
  let base := option_payload args spot strike sigma in
  ([ build_cli float_repr (args_binary args) "option" base;
     build_cli float_repr (args_binary args) "var" (var_payload args spot sigma) ]
   ++ map (fun i => build_cli float_repr (args_binary args) "option"
                      (sweep_payload args base i))
          (py_range (args_stress_runs args)))%list.

(** ** A complete run against stand-ins *)

Module FakeRun.

(** A response with a price and a value at risk and no standard error. *)
Definition json_loads (text : string) : result json :=
  Ok (JDict [("result", JDict [("price", JFloat (Fin 10));
                               ("valueAtRisk", JFloat (Fin 5))])]).

(** An option that has expired: maturity 0, strike at the money. *)
Definition args : Namespace :=
  {| args_strike := None;
     args_maturity := Fin 0;
     args_rate := Fin 0.02;
     args_dividend := Fin 0.01;
     args_paths := 1000;
     args_notional := Fin 1000000.0;
     args_percentile := Fin 0.99;
     args_binary := "build/risk_sim";
     args_stress_runs := 3 |}.

Definition missing (path : string) (w : unit) : bool := false.

End FakeRun.

(** The binary64 number nearest to 0.2, the value of the literal [0.2]. *)
Definition double_0_2 : R := 3602879701896397 / 18014398509481984.

(* ================================================================== *)
(** * Properties of the binary64 rounding *)
(* ================================================================== *)

Module Binary64Facts.

Import Binary64.

Lemma pow2_pos (e : Z) : 0 < pow2 e.
Proof. apply powerRZ_lt. lra. Qed.

Lemma pow2_add (a b : Z) : pow2 (a + b) = pow2 a * pow2 b.
Proof. apply powerRZ_add. lra. Qed.

Lemma pow2_exp (e : Z) : pow2 e = exp (IZR e * ln 2).
Proof. unfold pow2. rewrite powerRZ_Rpower by lra. reflexivity. Qed.

Lemma ln2_pos : 0 < ln 2.
Proof. rewrite <- ln_1. apply ln_increasing; lra. Qed.

Lemma pow2_le (a b : Z) : (a <= b)%Z -> pow2 a <= pow2 b.
Proof.
  intros H. rewrite !pow2_exp.
  destruct (Z.eq_dec a b) as [->|Hne]; [lra|].
  apply Rlt_le, exp_increasing. apply Rmult_lt_compat_r; [apply ln2_pos|].
  apply IZR_lt. lia.
Qed.

Lemma pow2_lt (a b : Z) : (a < b)%Z -> pow2 a < pow2 b.
Proof.
  intros H. rewrite !pow2_exp. apply exp_increasing.
  apply Rmult_lt_compat_r; [apply ln2_pos | apply IZR_lt; exact H].
Qed.

Lemma pow2_IZR (e : Z) : (0 <= e)%Z -> pow2 e = IZR (2 ^ e).
Proof.
  intros H. unfold pow2. destruct e as [|p|p]; [reflexivity| |lia].
  cbn [powerRZ]. rewrite pow_IZR. f_equal.
  rewrite positive_nat_Z. reflexivity.
Qed.

Lemma ex_bound (x : R) : 0 < x -> pow2 (ex x) <= x < pow2 (ex x + 1).
Proof.
  intros Hx. pose proof ln2_pos as H2.
  destruct (Zfloor_bound (ln x / ln 2)) as [Hlo Hhi]. fold (ex x) in Hlo, Hhi.
  assert (Hq : ln x = ln x / ln 2 * ln 2) by (field; lra).
  rewrite !pow2_exp, plus_IZR. split.
  - rewrite <- (exp_ln x Hx) at 2.
    destruct (Req_dec (IZR (ex x) * ln 2) (ln x)) as [->|Hne]; [lra|].
    apply Rlt_le, exp_increasing. nra.
  - rewrite <- (exp_ln x Hx) at 1. apply exp_increasing. nra.
Qed.

Lemma ex_unique (x : R) (e : Z) : pow2 e <= x < pow2 (e + 1) -> ex x = e.
Proof.
  intros [Hlo Hhi]. pose proof ln2_pos as H2.
  assert (Hx : 0 < x) by (pose proof (pow2_pos e); lra).
  rewrite !pow2_exp, plus_IZR in *.
  apply Zfloor_eq.
  assert (H1 : IZR e * ln 2 <= ln x).
  { destruct (Rle_lt_dec (IZR e * ln 2) (ln x)) as [H|H]; [exact H|].
    apply exp_increasing in H. rewrite (exp_ln x Hx) in H. lra. }
  assert (H3 : ln x < (IZR e + 1) * ln 2).
  { rewrite <- (exp_ln x Hx) in Hhi. apply exp_lt_inv in Hhi. exact Hhi. }
  split.
  - apply Rmult_le_reg_r with (ln 2); [exact H2|].
    replace (ln x / ln 2 * ln 2) with (ln x) by (field; lra). exact H1.
  - apply Rmult_lt_reg_r with (ln 2); [exact H2|].
    replace (ln x / ln 2 * ln 2) with (ln x) by (field; lra). exact H3.
Qed.

Lemma ex_le (x y : R) : 0 < x -> x <= y -> (ex x <= ex y)%Z.
Proof.
  intros Hx Hxy. pose proof ln2_pos as H2. apply Zfloor_le.
  assert (Hln : ln x <= ln y).
  { destruct (Req_dec x y) as [->|Hne]; [lra|]. apply Rlt_le, ln_increasing; lra. }
  unfold Rdiv. apply Rmult_le_compat_r; [|exact Hln].
  apply Rlt_le, Rinv_0_lt_compat. exact H2.
Qed.

Lemma rne_IZR (z : Z) : rne (IZR z) = z.
Proof.
  unfold rne. rewrite ZfloorZ.
  destruct (Rlt_dec (IZR z - IZR z) (1 / 2)) as [_|H]; [reflexivity | lra].
Qed.

Lemma rne_between (t : R) : (Zfloor t <= rne t <= Zfloor t + 1)%Z.
Proof.
  unfold rne. destruct (Rlt_dec _ _); [lia|].
  destruct (Rlt_dec _ _); [lia|]. destruct (Z.even _); lia.
Qed.

Lemma rne_le (t u : R) : t <= u -> (rne t <= rne u)%Z.
Proof.
  intros Htu. pose proof (Zfloor_le t u Htu) as Hfg.
  destruct (Z.eq_dec (Zfloor t) (Zfloor u)) as [E|N].
  - unfold rne. rewrite <- E.
    destruct (Rlt_dec (t - IZR (Zfloor t)) (1 / 2)) as [Ha|Ha].
    + destruct (Rlt_dec (u - IZR (Zfloor t)) (1 / 2)); [lia|].
      destruct (Rlt_dec (1 / 2) (u - IZR (Zfloor t))); [lia|].
      destruct (Z.even (Zfloor t)); lia.
    + destruct (Rlt_dec (u - IZR (Zfloor t)) (1 / 2)) as [Hb|Hb]; [lra|].
      destruct (Rlt_dec (1 / 2) (t - IZR (Zfloor t))) as [Ha'|Ha'].
      * destruct (Rlt_dec (1 / 2) (u - IZR (Zfloor t))) as [Hb'|Hb']; [lia | lra].
      * destruct (Rlt_dec (1 / 2) (u - IZR (Zfloor t))) as [Hb'|Hb'];
          destruct (Z.even (Zfloor t)); lia.
  - pose proof (rne_between t). pose proof (rne_between u). lia.
Qed.

Lemma rne_nonneg (t : R) : 0 <= t -> (0 <= rne t)%Z.
Proof.
  intros Ht. pose proof (rne_between t).
  pose proof (Zfloor_lub 0 t Ht). lia.
Qed.

Lemma rne_down (t : R) (f : Z) : IZR f <= t < IZR f + 1 / 2 -> rne t = f.
Proof.
  intros H. assert (Hf : Zfloor t = f) by (apply Zfloor_eq; lra).
  unfold rne. rewrite Hf. destruct (Rlt_dec (t - IZR f) (1 / 2)); [reflexivity | lra].
Qed.

Lemma rne_up (t : R) (f : Z) : IZR f + 1 / 2 < t < IZR f + 1 -> rne t = (f + 1)%Z.
Proof.
  intros H. assert (Hf : Zfloor t = f) by (apply Zfloor_eq; lra).
  unfold rne. rewrite Hf. destruct (Rlt_dec (t - IZR f) (1 / 2)); [lra|].
  destruct (Rlt_dec (1 / 2) (t - IZR f)); [reflexivity | lra].
Qed.

Lemma round64_0 : round64 0 = 0.
Proof.
  unfold round64. destruct (Rlt_dec 0 0); [lra|]. destruct (Rlt_dec 0 0); [lra|].
  reflexivity.
Qed.

Lemma round64_pos (x : R) : 0 < x -> round64 x = round_pos x.
Proof. intros H. unfold round64. destruct (Rlt_dec 0 x); [reflexivity | lra]. Qed.

Lemma round_pos_nonneg (x : R) : 0 < x -> 0 <= round_pos x.
Proof.
  intros Hx. unfold round_pos. cbv zeta.
  set (k := Z.max (ex x - 52) (-1074)).
  apply Rmult_le_pos; [|apply Rlt_le, pow2_pos].
  apply IZR_le. apply rne_nonneg.
  apply Rlt_le, Rdiv_lt_0_compat; [exact Hx | apply pow2_pos].
Qed.

Lemma round64_nonneg (x : R) : 0 <= x -> 0 <= round64 x.
Proof.
  intros Hx. destruct (Req_dec x 0) as [->|Hne]; [rewrite round64_0; lra|].
  rewrite round64_pos by lra. apply round_pos_nonneg. lra.
Qed.

Lemma div_pow2 (x : R) (k : Z) : x / pow2 k * pow2 k = x.
Proof. pose proof (pow2_pos k). field. lra. Qed.

Lemma round_pos_le (x y : R) : 0 < x -> x <= y -> round_pos x <= round_pos y.
Proof.
  intros Hx Hxy. assert (Hy : 0 < y) by lra.
  pose proof (ex_le x y Hx Hxy) as He.
  unfold round_pos. cbv zeta.
  set (kx := Z.max (ex x - 52) (-1074)). set (ky := Z.max (ex y - 52) (-1074)).
  assert (Hk : (kx <= ky)%Z) by lia.
  destruct (Z.eq_dec kx ky) as [E|N].
  - rewrite <- E. apply Rmult_le_compat_r; [apply Rlt_le, pow2_pos|].
    apply IZR_le, rne_le. unfold Rdiv. apply Rmult_le_compat_r; [|exact Hxy].
    apply Rlt_le, Rinv_0_lt_compat, pow2_pos.
  - assert (Hky : ky = (ex y - 52)%Z) by lia.
    destruct (ex_bound x Hx) as [_ Hxhi]. destruct (ex_bound y Hy) as [Hylo _].
    apply Rle_trans with (pow2 (ex y)).
    + (* the rounded x does not pass the power of two below y *)
      replace (pow2 (ex y)) with (IZR (2 ^ (ex y - kx)) * pow2 kx).
      * apply Rmult_le_compat_r; [apply Rlt_le, pow2_pos|].
        apply IZR_le. rewrite <- (rne_IZR (2 ^ (ex y - kx))). apply rne_le.
        rewrite <- pow2_IZR by lia.
        apply Rmult_le_reg_r with (pow2 kx); [apply pow2_pos|].
        rewrite div_pow2, <- pow2_add. replace (ex y - kx + kx)%Z with (ex y) by lia.
        apply Rle_trans with (pow2 (ex x + 1)); [lra|]. apply pow2_le. lia.
      * rewrite <- pow2_IZR by lia. rewrite <- pow2_add. f_equal. lia.
    + replace (pow2 (ex y)) with (IZR (2 ^ 52) * pow2 ky).
      * apply Rmult_le_compat_r; [apply Rlt_le, pow2_pos|].
        apply IZR_le. rewrite <- (rne_IZR (2 ^ 52)) at 1. apply rne_le.
        rewrite <- pow2_IZR by lia.
        apply Rmult_le_reg_r with (pow2 ky); [apply pow2_pos|].
        rewrite div_pow2, <- pow2_add. replace (52 + ky)%Z with (ex y) by lia.
        exact Hylo.
      * rewrite <- pow2_IZR by lia. rewrite <- pow2_add. f_equal. lia.
Qed.

(** Rounding is monotone on the non-negative reals. *)
Lemma round64_le (x y : R) : 0 <= x -> x <= y -> round64 x <= round64 y.
Proof.
  intros Hx Hxy. destruct (Req_dec x 0) as [->|Hne].
  - rewrite round64_0. apply round64_nonneg. exact Hxy.
  - rewrite !round64_pos by lra. apply round_pos_le; lra.
Qed.

(** For evaluation: the rounding of a positive real in a known binade. *)
Lemma round64_binade (x : R) (e : Z) :
  pow2 e <= x < pow2 (e + 1) ->
  round64 x = IZR (rne (x / pow2 (Z.max (e - 52) (-1074))))
              * pow2 (Z.max (e - 52) (-1074)).
Proof.
  intros H. assert (Hx : 0 < x) by (pose proof (pow2_pos e); lra).
  rewrite round64_pos by exact Hx. unfold round_pos.
  rewrite (ex_unique x e H). reflexivity.
Qed.

(** A positive real that is a multiple of the spacing of its binade is a
    binary64 number: rounding leaves it alone. *)
Lemma round64_exact (x : R) (m j : Z) :
  0 < x -> x = IZR m * pow2 j -> (Z.max (ex x - 52) (-1074) <= j)%Z ->
  round64 x = x.
Proof.
  intros Hx Hm Hj. rewrite round64_pos by exact Hx. unfold round_pos. cbv zeta.
  set (k := Z.max (ex x - 52) (-1074)) in *.
  assert (Ht : x / pow2 k = IZR (m * 2 ^ (j - k))).
  { rewrite mult_IZR, <- pow2_IZR by lia.
    apply Rmult_eq_reg_r with (pow2 k); [|pose proof (pow2_pos k); lra].
    rewrite div_pow2, Rmult_assoc, <- pow2_add.
    replace (j - k + k)%Z with j by lia. exact Hm. }
  rewrite Ht, rne_IZR, <- Ht. apply div_pow2.
Qed.

Lemma round64_IZR (z : Z) : (0 <= z <= 2 ^ 53)%Z -> round64 (IZR z) = IZR z.
Proof.
  intros [H0 H53]. destruct (Z.eq_dec z 0) as [->|Hz]; [apply round64_0|].
  assert (Hpos : 0 < IZR z) by (apply IZR_lt; lia).
  destruct (Z.eq_dec z (2 ^ 53)) as [->|Hlt].
  - assert (He : ex (IZR (2 ^ 53)) = 53%Z).
    { apply ex_unique. rewrite <- pow2_IZR by lia. split; [lra|].
      apply pow2_lt. lia. }
    apply (round64_exact _ 1 53); [exact Hpos | |rewrite He; lia].
    rewrite <- pow2_IZR by lia. lra.
  - assert (He : (ex (IZR z) <= 52)%Z).
    { destruct (ex_bound (IZR z) Hpos) as [Hlo _].
      destruct (Z_le_gt_dec (ex (IZR z)) 52) as [H|H]; [exact H|].
      assert (pow2 53 <= pow2 (ex (IZR z))) by (apply pow2_le; lia).
      assert (IZR z < pow2 53) by (rewrite pow2_IZR by lia; apply IZR_lt; lia).
      lra. }
    apply (round64_exact _ z 0); [exact Hpos | |lia].
    unfold pow2. cbn [powerRZ]. lra.
Qed.

Lemma round64_1 : round64 1 = 1.
Proof. apply (round64_IZR 1). lia. Qed.

End Binary64Facts.
(* ================================================================== *)
(** * The range of binary64 *)
(* ================================================================== *)

Lemma DBL_OVERFLOW_large : 2048 <= DBL_OVERFLOW.
Proof.
  unfold DBL_OVERFLOW.
  assert (H1 : Binary64.pow2 1024 = 2 * Binary64.pow2 1023).
  { replace 1024%Z with (1 + 1023)%Z by lia. rewrite Binary64Facts.pow2_add.
    rewrite (Binary64Facts.pow2_IZR 1) by lia. reflexivity. }
  assert (H2 : Binary64.pow2 970 <= Binary64.pow2 1023)
    by (apply Binary64Facts.pow2_le; lia).
  assert (H3 : Binary64.pow2 11 <= Binary64.pow2 1023)
    by (apply Binary64Facts.pow2_le; lia).
  rewrite (Binary64Facts.pow2_IZR 11) in H3 by lia.
  change (2 ^ 11)%Z with 2048%Z in H3. lra.
Qed.

Lemma DBL_OVERFLOW_below : DBL_OVERFLOW < Binary64.pow2 1024.
Proof. unfold DBL_OVERFLOW. pose proof (Binary64Facts.pow2_pos 970). lra. Qed.

Lemma DBL_TINY_pos : 0 < DBL_TINY.
Proof. apply Binary64Facts.pow2_pos. Qed.

Lemma DBL_TINY_small : DBL_TINY <= / 2048.
Proof.
  unfold DBL_TINY.
  assert (H1 : Binary64.pow2 (-1075) <= Binary64.pow2 (-11))
    by (apply Binary64Facts.pow2_le; lia).
  assert (H2 : Binary64.pow2 (-11) * Binary64.pow2 11 = 1).
  { rewrite <- Binary64Facts.pow2_add. reflexivity. }
  rewrite (Binary64Facts.pow2_IZR 11) in H2 by lia.
  change (2 ^ 11)%Z with 2048%Z in H2.
  assert (H3 : Binary64.pow2 (-11) = / 2048).
  { apply Rmult_eq_reg_r with 2048; [|lra]. rewrite H2. field. }
  lra.
Qed.

Lemma fnorm_representable (x : R) : representable x -> fnorm x = Fin x.
Proof.
  intros [Hhi Hlo]. unfold fnorm. rewrite (Rleb_false _ _ Hhi).
  destruct Hlo as [->|Hlo].
  - rewrite Rabs_R0, (Rleb_true 0 DBL_TINY) by (apply Rlt_le, DBL_TINY_pos).
    reflexivity.
  - rewrite (Rleb_false _ _ Hlo). reflexivity.
Qed.

Lemma representable_0 : representable 0.
Proof.
  split; [|left; reflexivity]. rewrite Rabs_R0.
  pose proof DBL_OVERFLOW_large. lra.
Qed.

(** Magnitudes between 1/1024 and 1024 are well inside the range. *)
Lemma representable_moderate (x : R) : / 1024 <= Rabs x <= 1024 -> representable x.
Proof.
  intros [Hlo Hhi]. pose proof DBL_OVERFLOW_large. pose proof DBL_TINY_small.
  split; [lra|]. right.
  assert (/ 2048 < / 1024) by (apply Rinv_lt_contravar; lra). lra.
Qed.

Lemma representable_moderate_pos (x : R) : / 1024 <= x <= 1024 -> representable x.
Proof.
  intros H. apply representable_moderate. rewrite Rabs_pos_eq; [exact H|].
  assert (0 < / 1024) by (apply Rinv_0_lt_compat; lra). lra.
Qed.

Lemma fdiv_ieee_Fin (x y : R) :
  y <> 0 -> representable (x / y) -> fdiv_ieee (Fin x) (Fin y) = Fin (x / y).
Proof.
  intros Hy Hr. unfold fdiv_ieee. rewrite (Reqb_false y 0 Hy).
  apply fnorm_representable. exact Hr.
Qed.

Lemma math_exp_Fin (x : R) :
  representable (exp x) -> math_exp (Fin x) = Ok (Fin (exp x)).
Proof.
  intros Hr. unfold math_exp.
  assert (Hlt : exp x < DBL_OVERFLOW).
  { destruct Hr as [H _]. rewrite Rabs_pos_eq in H by (apply Rlt_le, exp_pos).
    exact H. }
  rewrite (Rleb_false _ _ Hlt), (fnorm_representable _ Hr). reflexivity.
Qed.

(** Bounds on the logarithm and the exponential used to place concrete
    values in the range. *)
Lemma ln_upper (x : R) : 0 < x -> ln x <= x - 1.
Proof.
  intros Hx. pose proof (exp_ineq1_le (ln x)) as H.
  rewrite (exp_ln x Hx) in H. lra.
Qed.

Lemma ln_lower (x : R) : 0 < x -> 1 - / x <= ln x.
Proof.
  intros Hx. assert (Hi : 0 < / x) by (apply Rinv_0_lt_compat; exact Hx).
  pose proof (ln_upper (/ x) Hi) as H. rewrite ln_Rinv in H by exact Hx. lra.
Qed.

Lemma exp_nonpos_bounds (x : R) : x <= 0 -> 1 + x <= exp x <= 1.
Proof.
  intros Hx. split; [apply exp_ineq1_le|].
  destruct (Req_dec x 0) as [->|Hne]; [rewrite exp_0; lra|].
  rewrite <- exp_0. apply Rlt_le, exp_increasing. lra.
Qed.

(** ** Evaluation lemmas for finite arguments *)

Lemma sqrt2_neq_0 : sqrt 2.0 <> 0.
Proof.
  assert (H : 0 < sqrt 2.0) by (apply sqrt_lt_R0; lra). lra.
Qed.

Lemma norm_cdf_unfold (x : R) :
  norm_cdf (Fin x)
  = Ok (fmul (Fin 0.5) (fadd (Fin 1.0) (math_erf (fnorm (x / sqrt 2.0))))).
Proof.
  unfold norm_cdf, math_sqrt. rewrite Rltb_false by lra. cbn [rbind].
  unfold py_truediv, feq. rewrite (Reqb_false _ _ sqrt2_neq_0). cbn [rbind].
  unfold fdiv_ieee. rewrite (Reqb_false _ _ sqrt2_neq_0). reflexivity.
Qed.

(** Phi(x) + Phi(-x) = 1 for the values [norm_cdf] returns, whether the
    scaled argument is in range, overflows or underflows. *)
Lemma norm_cdf_reflect (x : R) :
  exists a b : R,
    norm_cdf (Fin x) = Ok (Fin a) /\ norm_cdf (Fin (- x)) = Ok (Fin b) /\
    a + b = 1.
Proof.
  rewrite !norm_cdf_unfold.
  replace (- x / sqrt 2.0) with (- (x / sqrt 2.0)) by (field; exact sqrt2_neq_0).
  set (y := x / sqrt 2.0). unfold fnorm. rewrite Rabs_Ropp.
  destruct (Rleb DBL_OVERFLOW (Rabs y)) eqn:Hov.
  - apply Rleb_spec in Hov. pose proof DBL_OVERFLOW_large as Hbig.
    unfold Rltb. destruct (Rlt_dec y 0) as [Hneg|Hpos].
    + destruct (Rlt_dec (- y) 0) as [H|_]; [lra|]. cbn.
      eexists. eexists. split; [reflexivity|]. split; [reflexivity|]. lra.
    + assert (Hy : 0 < y).
      { destruct (Req_dec y 0) as [E|N]; [|lra].
        rewrite E, Rabs_R0 in Hov. lra. }
      destruct (Rlt_dec (- y) 0) as [_|H]; [|lra]. cbn.
      eexists. eexists. split; [reflexivity|]. split; [reflexivity|]. lra.
  - destruct (Rleb (Rabs y) DBL_TINY); cbn.
    + eexists. eexists. split; [reflexivity|]. split; [reflexivity|].
      rewrite Erf.erf_0. lra.
    + eexists. eexists. split; [reflexivity|]. split; [reflexivity|].
      rewrite Erf.erf_odd. lra.
Qed.

Lemma pow2_le_exp (z : Z) : (0 <= z)%Z -> Binary64.pow2 z <= exp (IZR z).
Proof.
  intros Hz. rewrite Binary64Facts.pow2_exp.
  assert (Hln : ln 2 <= 1) by (pose proof (ln_upper 2); lra).
  assert (H0 : 0 <= IZR z) by (apply IZR_le; exact Hz).
  assert (Hle : IZR z * ln 2 <= IZR z) by nra.
  destruct (Req_dec (IZR z * ln 2) (IZR z)) as [->|Hne]; [lra|].
  apply Rlt_le, exp_increasing. lra.
Qed.

(* ================================================================== *)
(** * Properties of the oracle *)
(* ================================================================== *)

(** A discount factor beyond the range of binary64: with rate -1024 and
    maturity 1 (spot 100, strike 95, volatility 0.2) math.exp(1024) raises
    OverflowError. *)
Lemma black_scholes_price_overflowing_discount :
  black_scholes_price (Fin 100) (Fin 95) (Fin (-1024)) (Fin 0.01) (Fin 0.2) (Fin 1) true
  = Raise OverflowError.
Proof.
  unfold black_scholes_price, fle.
  rewrite (Rleb_false 1 0), (Rleb_false 0.2 0) by lra. cbn [orb].
  unfold math_sqrt. rewrite (Rltb_false 1 0) by lra. cbn [rbind].
  assert (Hratio : representable (100 / 95)) by (apply representable_moderate_pos; lra).
  unfold py_truediv at 1. unfold feq. rewrite (Reqb_false 95 0) by lra. cbn [rbind].
  rewrite (fdiv_ieee_Fin 100 95) by (try lra; exact Hratio).
  unfold math_log. rewrite (Rleb_false (100 / 95) 0) by lra. cbn [rbind].
  cbn [fmul fadd fsub fneg]. unfold py_truediv, feq.
  rewrite (Reqb_false (0.2 * sqrt 1) 0) by (rewrite sqrt_1; lra). cbn [rbind].
  unfold math_exp at 1.
  replace (- -1024 * 1) with (IZR 1024) by lra.
  rewrite Rleb_true; [reflexivity|].
  pose proof (pow2_le_exp 1024 ltac:(lia)). pose proof DBL_OVERFLOW_below. lra.
Qed.

(** A quotient spot / strike that underflows: 2^-600 / 2^600 is rounded to
    zero and math.log(0.0) raises ValueError, although spot and strike are
    positive. *)
Lemma black_scholes_price_underflowing_ratio :
  black_scholes_price (Fin (Binary64.pow2 (-600))) (Fin (Binary64.pow2 600))
    (Fin 0.02) (Fin 0.01) (Fin 0.2) (Fin 1) false
  = Raise ValueError.
Proof.
  pose proof (Binary64Facts.pow2_pos (-600)) as HS.
  pose proof (Binary64Facts.pow2_pos 600) as HK.
  pose proof (Binary64Facts.pow2_pos (-1200)) as Hq.
  assert (E : Binary64.pow2 (-600) / Binary64.pow2 600 = Binary64.pow2 (-1200)).
  { apply Rmult_eq_reg_r with (Binary64.pow2 600); [|lra].
    rewrite Binary64Facts.div_pow2, <- Binary64Facts.pow2_add. reflexivity. }
  assert (Hsmall : Binary64.pow2 (-1200) <= DBL_TINY)
    by (apply Binary64Facts.pow2_le; lia).
  assert (Hz : fnorm (Binary64.pow2 (-600) / Binary64.pow2 600) = Fin 0).
  { unfold fnorm. rewrite E, (Rabs_right (Binary64.pow2 (-1200))) by lra.
    pose proof DBL_OVERFLOW_large as Hl. pose proof DBL_TINY_small as Ht.
    rewrite (Rleb_false DBL_OVERFLOW (Binary64.pow2 (-1200))) by lra.
    rewrite (Rleb_true _ _ Hsmall). reflexivity. }
  set (S := Binary64.pow2 (-600)) in *. set (K := Binary64.pow2 600) in *.
  unfold black_scholes_price, fle.
  rewrite (Rleb_false 1 0), (Rleb_false 0.2 0) by lra. cbn [orb].
  unfold math_sqrt. rewrite (Rltb_false 1 0) by lra. cbn [rbind].
  unfold py_truediv at 1. unfold feq. rewrite (Reqb_false K 0) by lra. cbn [rbind].
  unfold fdiv_ieee at 1. rewrite (Reqb_false K 0) by lra. rewrite Hz.
  unfold math_log. rewrite (Rleb_true 0 0) by lra. reflexivity.
Qed.

(** C1 as stated fails, in two ways: a discount factor that overflows makes
    the oracle raise OverflowError, and a quotient spot / strike that
    underflows to zero makes it raise ValueError, in both cases for positive
    spot, strike, volatility and maturity. *)
Lemma put_call_parity_overflow :
  black_scholes_price (Fin 100) (Fin 95) (Fin (-1024)) (Fin 0.01) (Fin 0.2) (Fin 1) true
  = Raise OverflowError /\
  black_scholes_price (Fin (Binary64.pow2 (-600))) (Fin (Binary64.pow2 600))
    (Fin 0.02) (Fin 0.01) (Fin 0.2) (Fin 1) false
  = Raise ValueError.
Proof.
  split; [exact black_scholes_price_overflowing_discount
         | exact black_scholes_price_underflowing_ratio].
Qed.

(** C1, amended. Put-call parity: for positive spot, strike, volatility and
    maturity (and any rate and dividend yield) such that no intermediate
    quantity of the closed form overflows or underflows, both prices are
    returned and the call price minus the put price is S*exp(-qT) -
    K*exp(-rT).  Rounding to 53 bits is outside the model, so the identity
    is exact there. *)
Theorem put_call_parity (S K r q sigma T : R) :
  0 < S -> 0 < K -> 0 < sigma -> 0 < T ->
  closed_form_in_range S K r q sigma T ->
  exists c p : R,
    black_scholes_price (Fin S) (Fin K) (Fin r) (Fin q) (Fin sigma) (Fin T) true
      = Ok (Fin c) /\
    black_scholes_price (Fin S) (Fin K) (Fin r) (Fin q) (Fin sigma) (Fin T) false
      = Ok (Fin p) /\
    c - p = S * exp (- q * T) - K * exp (- r * T).
Proof.
  intros HS HK Hsig HT (Hratio & _ & _ & _ & Hd1 & Her & Heq & _ & _).
  assert (HsT : 0 < sqrt T) by (apply sqrt_lt_R0; exact HT).
  assert (Hprod : sigma * sqrt T <> 0)
    by (apply Rgt_not_eq, Rmult_lt_0_compat; assumption).
  assert (Hpos : 0 < S / K) by (apply Rdiv_lt_0_compat; assumption).
  set (d1 := bs_d1 S K r q sigma T) in *.
  set (d2 := d1 - sigma * sqrt T).
  destruct (norm_cdf_reflect d1) as (n1 & m1 & Hn1 & Hm1 & E1).
  destruct (norm_cdf_reflect d2) as (n2 & m2 & Hn2 & Hm2 & E2).
  assert (Hbody : forall is_call,
    black_scholes_price (Fin S) (Fin K) (Fin r) (Fin q) (Fin sigma) (Fin T) is_call
    = Ok (Fin (if is_call
               then S * exp (- q * T) * n1 - K * exp (- r * T) * n2
               else K * exp (- r * T) * m2 - S * exp (- q * T) * m1))).
  { intro is_call. unfold black_scholes_price, fle.
    rewrite (Rleb_false T 0 HT), (Rleb_false sigma 0 Hsig). cbn [orb].
    unfold math_sqrt. rewrite (Rltb_false T 0) by lra. cbn [rbind].
    unfold py_truediv at 1. unfold feq. rewrite (Reqb_false K 0) by lra.
    cbn [rbind]. rewrite (fdiv_ieee_Fin S K) by (try lra; exact Hratio).
    unfold math_log. rewrite (Rleb_false (S / K) 0 Hpos). cbn [rbind].
    cbn [fmul fadd fsub fneg]. unfold py_truediv, feq.
    rewrite (Reqb_false _ 0 Hprod). cbn [rbind].
    rewrite fdiv_ieee_Fin by (try exact Hprod; exact Hd1).
    rewrite (math_exp_Fin _ Her), (math_exp_Fin _ Heq). cbn [rbind].
    cbn [fsub fneg fadd].
    change ((ln (S / K) + (r + - q + 0.5 * sigma * sigma) * T) / (sigma * sqrt T))
      with d1.
    change (d1 + - (sigma * sqrt T)) with d2.
    destruct is_call.
    - rewrite Hn1, Hn2. reflexivity.
    - rewrite Hm2, Hm1. reflexivity. }
  eexists. eexists. split; [apply (Hbody true)|]. split; [apply (Hbody false)|].
  cbv beta iota. replace m1 with (1 - n1) by lra. replace m2 with (1 - n2) by lra.
  ring.
Qed.

Lemma closed_form_in_range_example :
  closed_form_in_range 100 95 0.02 0.01 0.2 1.
Proof.
  assert (Hln : 0.05 <= ln (100 / 95) <= 0.06).
  { split.
    - pose proof (ln_lower (100 / 95)) as H. rewrite Rinv_div in H. lra.
    - pose proof (ln_upper (100 / 95)). lra. }
  assert (He1 : 0.98 <= exp (- (0.02) * 1) <= 1)
    by (pose proof (exp_nonpos_bounds (- (0.02) * 1)); lra).
  assert (He2 : 0.99 <= exp (- (0.01) * 1) <= 1)
    by (pose proof (exp_nonpos_bounds (- (0.01) * 1)); lra).
  unfold closed_form_in_range, bs_d1. rewrite sqrt_1.
  refine (conj _ (conj _ (conj _ (conj _ (conj _ (conj _ (conj _ (conj _ _))))))));
    apply representable_moderate_pos; try lra; nra.
Qed.

Lemma put_call_parity_witness :
  exists c p : R,
    black_scholes_price (Fin 100) (Fin 95) (Fin 0.02) (Fin 0.01) (Fin 0.2) (Fin 1) true
      = Ok (Fin c) /\
    black_scholes_price (Fin 100) (Fin 95) (Fin 0.02) (Fin 0.01) (Fin 0.2) (Fin 1) false
      = Ok (Fin p) /\
    c - p = 100 * exp (- (0.01) * 1) - 95 * exp (- (0.02) * 1).
Proof.
  apply (put_call_parity 100 95 0.02 0.01 0.2 1); try lra.
  exact closed_form_in_range_example.
Defined.

Lemma py_max_Fin (x : R) : py_max (Fin 0.0) (Fin x) = Fin (Rmax 0 x).
Proof.
  unfold py_max, flt, Rltb, Rmax.
  destruct (Rlt_dec 0.0 x), (Rle_dec 0 x); try lra; f_equal; lra.
Qed.

(** C2. Degenerate case: when maturity <= 0 or volatility <= 0 the oracle
    returns the intrinsic value, max(0, spot - strike) for a call and
    max(0, strike - spot) for a put, whatever the other arguments are; on
    finite spot and strike that is the real maximum. *)
Theorem degenerate_returns_intrinsic
    (spot strike rate dividend vol maturity : float) :
  fle maturity (Fin 0) = true \/ fle vol (Fin 0) = true ->
  (black_scholes_price spot strike rate dividend vol maturity true
     = Ok (py_max (Fin 0.0) (fsub spot strike)) /\
   black_scholes_price spot strike rate dividend vol maturity false
     = Ok (py_max (Fin 0.0) (fsub strike spot))) /\
  (forall S K : R, spot = Fin S -> strike = Fin K ->
     black_scholes_price spot strike rate dividend vol maturity true
       = Ok (Fin (Rmax 0 (S - K))) /\
     black_scholes_price spot strike rate dividend vol maturity false
       = Ok (Fin (Rmax 0 (K - S)))).
Proof.
  intros Hguard.
  assert (Hcond : fle maturity (Fin 0) || fle vol (Fin 0) = true).
  { apply orb_true_iff. exact Hguard. }
  assert (Hgen : forall c, black_scholes_price spot strike rate dividend vol maturity c
       = Ok (if c then py_max (Fin 0.0) (fsub spot strike)
             else py_max (Fin 0.0) (fsub strike spot))).
  { intro c. unfold black_scholes_price. rewrite Hcond. destruct c; reflexivity. }
  split.
  - split; [exact (Hgen true) | exact (Hgen false)].
  - intros S K -> ->. rewrite (Hgen true), (Hgen false).
    cbn [fsub fneg fadd]. rewrite !py_max_Fin.
    split; reflexivity.
Qed.

Lemma degenerate_returns_intrinsic_witness :
  black_scholes_price (Fin 100) (Fin 95) (Fin 0.02) (Fin 0.01) (Fin 0.2) (Fin 0) true
    = Ok (Fin (Rmax 0 (100 - 95))).
Proof.
  refine (proj1 (proj2 (degenerate_returns_intrinsic
            (Fin 100) (Fin 95) (Fin 0.02) (Fin 0.01) (Fin 0.2) (Fin 0) _)
          100 95 eq_refl eq_refl)).
  left. apply Rleb_true. lra.
Defined.

(* ================================================================== *)
(** * Properties of the estimator *)
(* ================================================================== *)

Lemma fold_left_fadd_Fin (l : list R) (a : R) :
  fold_left fadd (map Fin l) (Fin a) = Fin (a + Rsum l).
Proof.
  revert a. induction l as [|x l IH]; intro a; cbn.
  - f_equal. lra.
  - change (fold_left fadd (map Fin l) (Fin (a + x)) = Fin (a + (x + Rsum l))).
    rewrite IH. f_equal. unfold Rsum. lra.
Qed.

Lemma fsum_Fin (l : list R) : fsum (map Fin l) = Fin (Rsum l).
Proof. unfold fsum. rewrite fold_left_fadd_Fin. f_equal. lra. Qed.

Lemma dropna_Fin (l : list R) : dropna (map Fin l) = map Fin l.
Proof.
  unfold dropna. induction l as [|x l IH]; cbn; [reflexivity|].
  f_equal. exact IH.
Qed.

Lemma Rsum_sqr_nonneg (f : R -> R) (l : list R) :
  0 <= Rsum (map (fun r => Rsqr (f r)) l).
Proof.
  induction l as [|x l IH]; cbn; [lra|].
  pose proof (Rle_0_sqr (f x)). unfold Rsum in IH. lra.
Qed.

Lemma log_returns_from_length (prev : R) (l : list R) :
  length (log_returns_from prev l) = length l.
Proof. revert prev. induction l; intro; cbn; auto. Qed.

Lemma log_returns_length (l : list R) :
  length (log_returns l) = (length l - 1)%nat.
Proof.
  destruct l as [|c l]; cbn; [reflexivity|].
  rewrite log_returns_from_length. lia.
Qed.

Lemma removelast_map {A B : Type} (f : A -> B) (l : list A) :
  removelast (map f l) = map f (removelast l).
Proof.
  induction l as [|a l IH]; [reflexivity|].
  destruct l as [|b l]; [reflexivity|].
  change (f a :: removelast (map f (b :: l)) = f a :: map f (removelast (b :: l))).
  f_equal. exact IH.
Qed.

(** The rows of log(close / close.shift(1)) after the first. *)
Lemma np_log_ratio_from (prev : R) (rest : list R) :
  0 < prev -> Forall (Rlt 0) rest -> Forall representable (ratios_from prev rest) ->
  map np_log (zip_with fdiv_ieee (map Fin rest) (map Fin (removelast (prev :: rest))))
  = map Fin (log_returns_from prev rest).
Proof.
  revert prev. induction rest as [|c rest IH]; intros prev Hprev Hall Hrange.
  - reflexivity.
  - inversion Hall as [|? ? Hc Hrest]; subst.
    cbn [ratios_from] in Hrange. inversion Hrange as [|? ? Hr Hrs]; subst.
    change (removelast (prev :: c :: rest)) with (prev :: removelast (c :: rest)).
    cbn [map zip_with log_returns_from]. f_equal.
    + rewrite (fdiv_ieee_Fin c prev) by (try lra; exact Hr).
      assert (Hq : 0 < c / prev) by (apply Rdiv_lt_0_compat; assumption).
      unfold np_log. rewrite (Rltb_false (c / prev) 0) by lra.
      rewrite (Reqb_false (c / prev) 0) by lra. reflexivity.
    + apply IH; assumption.
Qed.

Lemma returns_of_positive_closes (closes : list R) :
  Forall (Rlt 0) closes -> Forall representable (consecutive_ratios closes) ->
  dropna (map np_log (series_div (map Fin closes) (shift1 (map Fin closes))))
  = map Fin (log_returns closes).
Proof.
  intros Hall Hrange. destruct closes as [|c0 rest]; [reflexivity|].
  inversion Hall as [|? ? Hc0 Hrest]; subst. cbn [consecutive_ratios] in Hrange.
  unfold series_div, shift1. cbn [map].
  change (Fin c0 :: map Fin rest) with (map Fin (c0 :: rest)).
  rewrite removelast_map.
  cbn [map zip_with fdiv_ieee np_log dropna filter isnan negb].
  fold (dropna (map np_log
     (zip_with fdiv_ieee (map Fin rest) (map Fin (removelast (c0 :: rest)))))).
  rewrite np_log_ratio_from by assumption.
  apply dropna_Fin.
Qed.

Lemma series_mean_Fin (l : list R) :
  l <> [] -> representable (sample_mean l) ->
  series_mean (map Fin l) = Fin (sample_mean l).
Proof.
  intros Hne Hr. unfold series_mean. rewrite dropna_Fin, length_map.
  destruct l as [|x l]; [contradiction|].
  cbn [length Nat.eqb]. rewrite fsum_Fin.
  apply fdiv_ieee_Fin; [apply not_0_INR; discriminate | exact Hr].
Qed.

Lemma squared_deviations_Fin (a : R) (l : list R) :
  map (fun x => fmul (fsub (Fin a) x) (fsub (Fin a) x)) (map Fin l)
  = map Fin (map (fun r => Rsqr (r - a)) l).
Proof.
  induction l as [|x l IH]; [reflexivity|].
  cbn [map fsub fneg fadd fmul]. rewrite <- IH. f_equal. f_equal.
  unfold Rsqr. ring.
Qed.

Lemma series_std_Fin (l : list R) :
  (2 <= length l)%nat ->
  representable (sample_mean l) -> representable (bessel_variance l) ->
  series_std 1 (map Fin l) = Fin (bessel_std l).
Proof.
  intros Hlen Hrm Hrv. unfold series_std. rewrite dropna_Fin, length_map.
  destruct (Nat.leb_spec (length l) 1) as [Hle|_]; [lia|].
  rewrite fsum_Fin.
  assert (Hn : INR (length l) <> 0) by (apply not_0_INR; lia).
  assert (Havg : fdiv_ieee (Fin (Rsum l)) (Fin (INR (length l)))
                 = Fin (sample_mean l)).
  { apply fdiv_ieee_Fin; [exact Hn | exact Hrm]. }
  cbv zeta. rewrite !Havg.
  rewrite squared_deviations_Fin, fsum_Fin.
  assert (Hd : INR (length l - 1) = INR (length l) - 1).
  { rewrite minus_INR by lia. reflexivity. }
  assert (Hd0 : INR (length l - 1) <> 0) by (apply not_0_INR; lia).
  rewrite fdiv_ieee_Fin by (try exact Hd0; rewrite Hd; exact Hrv).
  rewrite Hd. unfold np_sqrt.
  rewrite Rltb_false; [reflexivity|].
  apply Rle_mult_inv_pos.
  - apply Rsum_sqr_nonneg with (f := fun r => r - sample_mean l).
  - assert (2 <= INR (length l)) by (apply (le_INR 2); exact Hlen). lra.
Qed.

Lemma bessel_std_float_defined (l : list R) :
  (2 <= length l)%nat -> representable (bessel_variance l) ->
  bessel_std_float l = Fin (bessel_std l).
Proof.
  intros Hlen Hrv. unfold bessel_std_float, bessel_std.
  assert (H2 : 2 <= INR (length l)) by (apply (le_INR 2); exact Hlen).
  rewrite fdiv_ieee_Fin by (try lra; exact Hrv).
  unfold np_sqrt. rewrite Rltb_false; [reflexivity|].
  apply Rle_mult_inv_pos; [|lra].
  apply Rsum_sqr_nonneg with (f := fun r => r - sample_mean l).
Qed.

Lemma bessel_std_float_single (l : list R) :
  length l = 1%nat -> bessel_std_float l = NaN.
Proof.
  intros Hlen. destruct l as [|x [|y l]]; try discriminate.
  unfold bessel_std_float, sample_mean, Rsum, fdiv_ieee. cbn [length INR map fold_right].
  rewrite (Reqb_true (1 - 1) 0) by lra.
  rewrite Reqb_true; [reflexivity|]. unfold Rsqr. field.
Qed.

Lemma series_std_bessel (l : list R) :
  l <> [] -> representable (sample_mean l) -> representable (bessel_variance l) ->
  series_std 1 (map Fin l) = bessel_std_float l.
Proof.
  intros Hne Hrm Hrv. destruct (Nat.le_gt_cases 2 (length l)) as [H2|H1].
  - rewrite series_std_Fin, bessel_std_float_defined by assumption. reflexivity.
  - assert (Hlen : length l = 1%nat) by (destruct l; [contradiction | cbn in *; lia]).
    rewrite (bessel_std_float_single l Hlen).
    unfold series_std. rewrite dropna_Fin, length_map, Hlen. reflexivity.
Qed.

Lemma realised_statistics_positive (closes : list R) :
  (2 <= length closes)%nat -> Forall (Rlt 0) closes -> statistics_in_range closes ->
  realised_statistics (map Fin closes)
  = Ok (Fin (sample_mean (log_returns closes) * 252.0),
        fmul (bessel_std_float (log_returns closes)) (Fin (sqrt 252.0))).
Proof.
  intros Hlen Hpos (Hratios & Hrm & Hrv).
  assert (Hrlen : length (log_returns closes) = (length closes - 1)%nat)
    by apply log_returns_length.
  assert (Hne : log_returns closes <> [])
    by (intro E; rewrite E in Hrlen; cbn in Hrlen; lia).
  unfold realised_statistics.
  rewrite (returns_of_positive_closes closes Hpos Hratios).
  rewrite (series_mean_Fin _ Hne Hrm), (series_std_bessel _ Hne Hrm Hrv).
  unfold math_sqrt. rewrite (Rltb_false 252.0 0) by lra. reflexivity.
Qed.


Lemma representable_zero (x : R) : x = 0 -> representable x.
Proof. intros ->. apply representable_0. Qed.

Lemma bessel_variance_single (x : R) : bessel_variance [x] = 0.
Proof.
  unfold bessel_variance. cbn [length INR]. replace (1 - 1) with 0 by lra.
  unfold Rdiv. rewrite Rinv_0. ring.
Qed.

Lemma ln_1_1_bounds : 0.09 <= ln (110 / 100) <= 0.1.
Proof.
  split.
  - pose proof (ln_lower (110 / 100)) as H. rewrite Rinv_div in H. lra.
  - pose proof (ln_upper (110 / 100)). lra.
Qed.

Lemma statistics_in_range_two_points : statistics_in_range [100; 110].
Proof.
  pose proof ln_1_1_bounds as HL.
  unfold statistics_in_range. cbn [consecutive_ratios ratios_from log_returns
    log_returns_from]. split; [|split].
  - constructor; [apply representable_moderate_pos; lra | constructor].
  - apply representable_moderate_pos. unfold sample_mean, Rsum.
    cbn [fold_right length INR]. lra.
  - apply representable_zero, bessel_variance_single.
Qed.

(** The two-point series of the specification: a single log return
    ln(110/100), drift 252 times it, and NaN for the volatility. *)
Example realised_statistics_two_points :
  log_returns [100; 110] = [ln (110 / 100)] /\
  realised_statistics [Fin 100; Fin 110]
  = Ok (Fin (sample_mean [ln (110 / 100)] * 252.0), NaN).
Proof.
  split; [reflexivity|].
  change [Fin 100; Fin 110] with (map Fin [100; 110]).
  rewrite realised_statistics_positive;
    [| cbn; lia | repeat constructor; lra | exact statistics_in_range_two_points].
  cbn [log_returns log_returns_from].
  rewrite bessel_std_float_single by reflexivity. reflexivity.
Qed.





Lemma ln_ratio_equal : ln (121 / 110) = ln (110 / 100).
Proof. f_equal. lra. Qed.

Lemma statistics_in_range_three_points : statistics_in_range [100; 110; 121].
Proof.
  pose proof ln_1_1_bounds as HL.
  unfold statistics_in_range. cbn [consecutive_ratios ratios_from log_returns
    log_returns_from]. rewrite ln_ratio_equal. split; [|split].
  - constructor; [apply representable_moderate_pos; lra|].
    constructor; [apply representable_moderate_pos; lra | constructor].
  - apply representable_moderate_pos. unfold sample_mean, Rsum.
    cbn [fold_right length INR]. lra.
  - apply representable_zero. unfold bessel_variance, sample_mean, Rsum.
    cbn [map fold_right length INR]. unfold Rsqr. field.
Qed.


(** C6 as stated fails: on a one-point series the estimator returns a pair
    of NaN and raises nothing. *)
Lemma realised_statistics_single_point_returns :
  realised_statistics [Fin 100] = Ok (NaN, NaN) /\
  ~ raises (realised_statistics [Fin 100]).
Proof.
  assert (E : realised_statistics [Fin 100] = Ok (NaN, NaN)).
  { unfold realised_statistics, math_sqrt.
    rewrite (Rltb_false 252.0 0) by lra. reflexivity. }
  split; [exact E|]. intros [e He]. rewrite E in He. discriminate.
Qed.

(** C6, amended. On a series with fewer than two points the estimator
    raises nothing: no return survives [dropna], and both the drift and the
    volatility are NaN. *)
Theorem realised_statistics_short_series (close : list float) :
  (length close < 2)%nat ->
  realised_statistics close = Ok (NaN, NaN).
Proof.
  intros Hlen.
  assert (Hs : math_sqrt (Fin 252.0) = Ok (Fin (sqrt 252.0))).
  { unfold math_sqrt. rewrite (Rltb_false 252.0 0) by lra. reflexivity. }
  destruct close as [|c [|c' rest]].
  - unfold realised_statistics. rewrite Hs. reflexivity.
  - unfold realised_statistics. rewrite Hs. destruct c; reflexivity.
  - cbn in Hlen. lia.
Qed.

Lemma realised_statistics_short_series_witness :
  realised_statistics [Fin 100] = Ok (NaN, NaN).
Proof.
  apply (realised_statistics_short_series [Fin 100]). cbn. lia.
Defined.

(* ================================================================== *)
(** * Properties of the comparator *)
(* ================================================================== *)

Lemma np_insert_perm (x : float) (l : list float) :
  Permutation (np_insert x l) (x :: l).
Proof.
  induction l as [|y l IH]; cbn; [apply Permutation_refl|].
  destruct (np_leb x y); [apply Permutation_refl|].
  apply perm_trans with (y :: x :: l); [apply perm_skip; exact IH | apply perm_swap].
Qed.

Lemma np_sort_perm (l : list float) : Permutation (np_sort l) l.
Proof.
  induction l as [|x l IH]; cbn; [apply perm_nil|].
  apply perm_trans with (x :: np_sort l); [apply np_insert_perm|].
  apply perm_skip. exact IH.
Qed.

Lemma Rinsert_perm (x : R) (l : list R) : Permutation (Rinsert x l) (x :: l).
Proof.
  induction l as [|y l IH]; cbn; [apply Permutation_refl|].
  destruct (Rleb x y); [apply Permutation_refl|].
  apply perm_trans with (y :: x :: l); [apply perm_skip; exact IH | apply perm_swap].
Qed.

Lemma Rsort_perm (l : list R) : Permutation (Rsort l) l.
Proof.
  induction l as [|x l IH]; cbn; [apply perm_nil|].
  apply perm_trans with (x :: Rsort l); [apply Rinsert_perm|].
  apply perm_skip. exact IH.
Qed.

Lemma Rinsert_sorted (x : R) (l : list R) :
  StronglySorted Rle l -> StronglySorted Rle (Rinsert x l).
Proof.
  induction l as [|y l IH]; intros Hs; cbn.
  - constructor; constructor.
  - inversion Hs as [|? ? Hl Hall]; subst.
    unfold Rleb. destruct (Rle_dec x y) as [Hxy|Hxy].
    + constructor; [exact Hs|]. constructor; [exact Hxy|].
      eapply Forall_impl; [|exact Hall]. intros z Hz. cbv beta in Hz. lra.
    + constructor; [apply IH; exact Hl|].
      rewrite Forall_forall. intros z Hz.
      apply (Permutation_in _ (Rinsert_perm x l)) in Hz.
      destruct Hz as [<-|Hz]; [lra|].
      rewrite Forall_forall in Hall. apply Hall. exact Hz.
Qed.

Lemma Rsort_sorted (l : list R) : StronglySorted Rle (Rsort l).
Proof.
  induction l as [|x l IH]; cbn; [constructor|].
  apply Rinsert_sorted. exact IH.
Qed.

Lemma sorted_nth_le (s : list R) :
  StronglySorted Rle s ->
  forall i j, (i <= j)%nat -> (j < length s)%nat -> nth i s 0 <= nth j s 0.
Proof.
  induction 1 as [|x s Hs IH Hall]; intros i j Hij Hj; [cbn in Hj; lia|].
  destruct j as [|j].
  - replace i with 0%nat by lia. lra.
  - destruct i as [|i].
    + cbn [nth]. rewrite Forall_forall in Hall. apply Hall.
      apply nth_In. cbn in Hj. lia.
    + cbn [nth]. apply IH; cbn in Hj; lia.
Qed.

Lemma np_insert_Fin (x : R) (l : list R) :
  np_insert (Fin x) (map Fin l) = map Fin (Rinsert x l).
Proof.
  induction l as [|y l IH]; [reflexivity|].
  cbn [map np_insert Rinsert np_leb fle].
  destruct (Rleb x y); [reflexivity|]. cbn [map]. f_equal. exact IH.
Qed.

Lemma np_sort_Fin (l : list R) : np_sort (map Fin l) = map Fin (Rsort l).
Proof.
  induction l as [|x l IH]; [reflexivity|].
  cbn [map np_sort Rsort]. rewrite IH. apply np_insert_Fin.
Qed.

Lemma existsb_isnan_In (l : list float) : existsb isnan l = true -> In NaN l.
Proof.
  intros H. apply existsb_exists in H. destruct H as [x [Hin Hx]].
  destruct x; try discriminate. exact Hin.
Qed.

(** The rank ceil((n-1) p) of a valid quantile is a position of the array. *)
Lemma ceil_rank_range (n : nat) (p : R) :
  (0 < n)%nat -> 0 <= p <= 1 ->
  (0 <= Zceil (INR (n - 1) * p) <= Z.of_nat (n - 1))%Z.
Proof.
  intros Hn [Hp0 Hp1].
  assert (H0 : 0 <= INR (n - 1)) by apply pos_INR.
  assert (Hh0 : 0 <= INR (n - 1) * p) by (apply Rmult_le_pos; assumption).
  assert (Hh1 : INR (n - 1) * p <= INR (n - 1)) by nra.
  split.
  - replace 0%Z with (Zceil (IZR 0)).
    + apply Zceil_le. exact Hh0.
    + apply Zceil_eq. lra.
  - replace (Z.of_nat (n - 1)) with (Zceil (IZR (Z.of_nat (n - 1)))).
    + apply Zceil_le. rewrite <- INR_IZR_INZ. exact Hh1.
    + apply Zceil_eq. lra.
Qed.

Lemma round64_unit_interval (p : R) :
  0 <= p <= 1 -> 0 <= Binary64.round64 p <= 1.
Proof.
  intros [H0 H1]. split; [apply Binary64Facts.round64_nonneg; exact H0|].
  rewrite <- Binary64Facts.round64_1. apply Binary64Facts.round64_le; assumption.
Qed.

(** The index read by NumPy is a position of the array, for arrays of at
    most 2^53 values (whose length binary64 holds exactly). *)
Lemma virtual_index_range (n : nat) (p : R) :
  (0 < n)%nat -> (Z.of_nat n <= 2 ^ 53)%Z -> 0 <= p <= 1 ->
  (0 <= virtual_index_higher n p <= Z.of_nat (n - 1))%Z.
Proof.
  intros Hn Hbig Hp. unfold virtual_index_higher.
  destruct (round64_unit_interval p Hp) as [Hr0 Hr1].
  assert (H0 : 0 <= INR (n - 1)) by apply pos_INR.
  assert (Hh0 : 0 <= INR (n - 1) * Binary64.round64 p)
    by (apply Rmult_le_pos; assumption).
  assert (Hh1 : INR (n - 1) * Binary64.round64 p <= INR (n - 1)) by nra.
  assert (Hm : Binary64.round64 (INR (n - 1)) = INR (n - 1)).
  { rewrite INR_IZR_INZ. apply Binary64Facts.round64_IZR. lia. }
  split.
  - replace 0%Z with (Zceil (IZR 0)) by (apply Zceil_eq; lra).
    apply Zceil_le. apply Binary64Facts.round64_nonneg. exact Hh0.
  - replace (Z.of_nat (n - 1)) with (Zceil (IZR (Z.of_nat (n - 1))))
      by (apply Zceil_eq; lra).
    apply Zceil_le.
    apply Rle_trans with (Binary64.round64 (INR (n - 1)));
      [apply Binary64Facts.round64_le; assumption|].
    rewrite Hm, INR_IZR_INZ. lra.
Qed.

Lemma np_quantile_higher_member (arr : list float) (p : R) :
  arr <> [] -> (Z.of_nat (length arr) <= 2 ^ 53)%Z -> 0 <= p <= 1 ->
  exists v, np_quantile_higher arr (Fin p) = Ok v /\ In v arr.
Proof.
  intros Hne Hbig Hp. unfold np_quantile_higher.
  rewrite (Rleb_true 0 p), (Rleb_true p 1) by lra. cbn [andb].
  destruct (existsb isnan arr) eqn:Hnan.
  - exists NaN. split; [reflexivity | apply existsb_isnan_In; exact Hnan].
  - eexists. split; [reflexivity|].
    apply (Permutation_in _ (np_sort_perm arr)).
    apply nth_In. rewrite (Permutation_length (np_sort_perm arr)).
    assert (Hlen : (0 < length arr)%nat)
      by (destruct arr; [contradiction | cbn; lia]).
    pose proof (virtual_index_range (length arr) p Hlen Hbig Hp). lia.
Qed.

Lemma compare_var_of_quantile (losses : list float) (q simulated v : float) :
  losses <> [] -> np_quantile_higher losses q = Ok v ->
  exists rel, compare_var losses q simulated = Ok (v, rel).
Proof.
  intros Hne Hq. unfold compare_var.
  destruct losses as [|x l]; [contradiction|]. cbn [length Nat.eqb].
  rewrite Hq. cbn [rbind]. unfold fne, py_truediv.
  destruct (feq v (Fin 0)); cbn [negb rbind]; eexists; reflexivity.
Qed.

(** Floor and ceiling of a real differ by at most one, and agree only on
    integers. *)
Lemma Zceil_floor_cases (h : R) :
  (Zceil h = Zfloor h /\ h = IZR (Zfloor h)) \/
  (Zceil h = (Zfloor h + 1)%Z /\ IZR (Zfloor h) < h).
Proof.
  pose proof (Zfloor_bound h) as [Hf1 Hf2].
  destruct (Req_dec h (IZR (Zfloor h))) as [E|N].
  - left. split; [|exact E]. apply Zceil_eq. lra.
  - right. split; [|lra]. apply Zceil_eq. rewrite plus_IZR. lra.
Qed.

Lemma upper_quantile_finite (sample : list R) (p : R) :
  sample <> [] -> 0 <= p <= 1 ->
  let y := nth (Z.to_nat (Zceil (INR (length sample - 1) * p))) (Rsort sample) 0 in
  In y sample /\
  linear_quantile sample p <= y /\
  forall z, In z sample -> linear_quantile sample p <= z -> y <= z.
Proof.
  intros Hne Hp y.
  set (n := length sample). set (s := Rsort sample).
  set (h := INR (n - 1) * p).
  assert (Hn : (0 < n)%nat) by (subst n; destruct sample; [contradiction|cbn; lia]).
  assert (Hslen : length s = n) by (apply Permutation_length, Rsort_perm).
  assert (Hsorted : StronglySorted Rle s) by apply Rsort_sorted.
  pose proof (ceil_rank_range n p Hn Hp) as Hc. fold h in Hc.
  assert (Hh0 : 0 <= h).
  { subst h. apply Rmult_le_pos; [apply pos_INR | lra]. }
  assert (Hf0 : (0 <= Zfloor h)%Z).
  { apply (Zfloor_lub 0 h). exact Hh0. }
  set (c := Z.to_nat (Zceil h)). set (lo := Z.to_nat (Zfloor h)).
  assert (Hcn : (c < n)%nat) by (subst c; lia).
  assert (Hy : y = nth c s 0) by reflexivity.
  assert (Hlq : linear_quantile sample p
                = nth lo s 0 + (h - IZR (Zfloor h))
                               * (nth (Nat.min (lo + 1) (n - 1)) s 0 - nth lo s 0))
    by reflexivity.
  assert (HyIn : In y sample).
  { apply (Permutation_in _ (Rsort_perm sample)). rewrite Hy.
    apply nth_In. fold s. lia. }
  split; [exact HyIn|].
  destruct (Zceil_floor_cases h) as [[Ecf Eh]|[Ecf Hlt]].
  - (* h is an integer: the interpolated value is the sample itself *)
    assert (Eclo : c = lo) by (subst c lo; rewrite Ecf; reflexivity).
    assert (E : linear_quantile sample p = y).
    { rewrite Hlq, Hy, Eclo. rewrite <- Eh. ring. }
    rewrite E. split; [lra|]. intros z _ Hz. exact Hz.
  - (* h lies strictly between two ranks *)
    assert (Eclo : c = (lo + 1)%nat) by (subst c lo; rewrite Ecf; lia).
    assert (Ehi : Nat.min (lo + 1) (n - 1) = c) by lia.
    rewrite Ehi in Hlq. fold y in Hlq. rewrite <- Hy in Hlq.
    pose proof (Zfloor_bound h) as [_ Hf2].
    set (f := h - IZR (Zfloor h)) in *.
    assert (Hfr : 0 < f < 1) by (subst f; lra).
    assert (Hloy : nth lo s 0 <= y).
    { rewrite Hy. apply sorted_nth_le; [exact Hsorted | lia | lia]. }
    split; [rewrite Hlq; nra|].
    intros z Hz Hle.
    apply (Permutation_in _ (Permutation_sym (Rsort_perm sample))) in Hz.
    fold s in Hz. destruct (In_nth s z 0 Hz) as [j [Hj Ej]].
    destruct (Nat.le_gt_cases c j) as [Hcj|Hjc].
    + rewrite <- Ej, Hy. apply sorted_nth_le; [exact Hsorted | exact Hcj | exact Hj].
    + assert (Hzlo : z <= nth lo s 0).
      { rewrite <- Ej. apply sorted_nth_le; [exact Hsorted | lia | lia]. }
      rewrite Hlq in Hle. nra.
Qed.

(** ** Evaluating the binary64 rounding on concrete values *)

Lemma pow2_neg_inv (p : positive) :
  Binary64.pow2 (Z.neg p) = / IZR (2 ^ Z.pos p).
Proof.
  rewrite <- (Binary64Facts.pow2_IZR (Z.pos p)) by lia.
  pose proof (Binary64Facts.pow2_pos (Z.pos p)) as Hpos.
  apply Rmult_eq_reg_r with (Binary64.pow2 (Z.pos p)); [|lra].
  rewrite <- Binary64Facts.pow2_add. replace (Z.neg p + Z.pos p)%Z with 0%Z by lia.
  rewrite Rinv_l by lra. reflexivity.
Qed.

(** A multiple of 2^j lying in the binade of exponent e is a binary64
    number as soon as j is at least the spacing exponent of that binade. *)
Lemma round64_dyadic (x : R) (m j e : Z) :
  x = IZR m * Binary64.pow2 j ->
  Binary64.pow2 e <= x < Binary64.pow2 (e + 1) ->
  (Z.max (e - 52) (-1074) <= j)%Z ->
  Binary64.round64 x = x.
Proof.
  intros Hm Hb Hj.
  assert (Hx : 0 < x) by (pose proof (Binary64Facts.pow2_pos e); lra).
  apply (Binary64Facts.round64_exact x m j Hx Hm).
  rewrite (Binary64Facts.ex_unique x e Hb). exact Hj.
Qed.

Lemma round64_sandwich (x a b : R) :
  0 <= a -> a <= x -> x <= b ->
  Binary64.round64 a = a -> Binary64.round64 b = b ->
  a <= Binary64.round64 x <= b.
Proof.
  intros Ha Hax Hxb Ea Eb. split.
  - rewrite <- Ea. apply Binary64Facts.round64_le; assumption.
  - rewrite <- Eb. apply Binary64Facts.round64_le; lra.
Qed.

Lemma round64_25_32 : Binary64.round64 (25 / 32) = 25 / 32.
Proof.
  apply (round64_dyadic _ 25 (-5) (-1)); [| |lia].
  - rewrite (pow2_neg_inv 5). change (2 ^ 5)%Z with 32%Z. lra.
  - rewrite (pow2_neg_inv 1). change (2 ^ 1)%Z with 2%Z.
    change (-1 + 1)%Z with 0%Z. unfold Binary64.pow2. cbn [powerRZ]. lra.
Qed.

Lemma round64_25_8 : Binary64.round64 (25 / 8) = 25 / 8.
Proof.
  apply (round64_dyadic _ 25 (-3) 1); [| |lia].
  - rewrite (pow2_neg_inv 3). change (2 ^ 3)%Z with 8%Z. lra.
  - rewrite (Binary64Facts.pow2_IZR 1), (Binary64Facts.pow2_IZR (1 + 1)) by lia.
    change (2 ^ 1)%Z with 2%Z. change (2 ^ (1 + 1))%Z with 4%Z. lra.
Qed.

(** The index of the sample of the specification: 4 * 0.8 rounds to a value
    in (3, 4], whose ceiling is 4. *)
Lemma virtual_index_sample : virtual_index_higher 5 0.8 = 4%Z.
Proof.
  unfold virtual_index_higher. change (5 - 1)%nat with 4%nat.
  replace (INR 4) with 4 by (cbn [INR]; lra).
  assert (Hp : 25 / 32 <= Binary64.round64 0.8 <= 1).
  { apply round64_sandwich; [lra | lra | lra | exact round64_25_32 | exact Binary64Facts.round64_1]. }
  assert (H4 : Binary64.round64 4 = 4) by (apply (Binary64Facts.round64_IZR 4); lia).
  assert (Hh : 25 / 8 <= Binary64.round64 (4 * Binary64.round64 0.8) <= 4).
  { apply round64_sandwich; [lra | lra | lra | exact round64_25_8 | exact H4]. }
  apply Zceil_eq. lra.
Qed.

(** The sample of the specification: ranks 0..4, index 4, value 100 (linear
    interpolation would give 44, not a member). *)
Example compare_var_sample :
  compare_var (map Fin [-50; -20; 0; 30; 100]) (Fin 0.8) (Fin 90)
  = Ok (Fin 100, Fin ((90 + - 100) / 100)).
Proof.
  unfold compare_var. cbn [map length Nat.eqb].
  unfold np_quantile_higher.
  rewrite (Rleb_true 0 0.8), (Rleb_true 0.8 1) by lra.
  cbn [andb existsb isnan orb length].
  rewrite virtual_index_sample.
  change [Fin (-50); Fin (-20); Fin 0; Fin 30; Fin 100]
    with (map Fin [-50; -20; 0; 30; 100]).
  rewrite np_sort_Fin.
  assert (Hsort : Rsort [-50; -20; 0; 30; 100] = [-50; -20; 0; 30; 100]).
  { cbn [Rsort Rinsert].
    repeat (rewrite Rleb_true by lra; cbn [Rinsert]). reflexivity. }
  rewrite Hsort. change (Z.to_nat 4) with 4%nat. cbn [map nth rbind].
  unfold fne, feq. rewrite (Reqb_false 100 0) by lra. cbn [negb].
  unfold py_truediv, feq. rewrite (Reqb_false 100 0) by lra.
  cbn [rbind fsub fneg fadd].
  rewrite fdiv_ieee_Fin; [reflexivity | lra |].
  apply representable_moderate. rewrite Rabs_left by lra. lra.
Qed.

Lemma round64_double_0_2 : Binary64.round64 double_0_2 = double_0_2.
Proof.
  unfold double_0_2.
  apply (round64_dyadic _ 3602879701896397 (-54) (-3)); [| |lia].
  - rewrite (pow2_neg_inv 54).
    change (2 ^ 54)%Z with 18014398509481984%Z. lra.
  - rewrite (pow2_neg_inv 3). change (-3 + 1)%Z with (-2)%Z.
    rewrite (pow2_neg_inv 2).
    change (2 ^ 3)%Z with 8%Z. change (2 ^ 2)%Z with 4%Z. lra.
Qed.

(** 5 times that number is 1 + 2^-54, which rounds down to 1. *)
Lemma round64_5_double_0_2 : Binary64.round64 (5 * double_0_2) = 1.
Proof.
  assert (Hb : Binary64.pow2 0 <= 5 * double_0_2 < Binary64.pow2 (0 + 1)).
  { rewrite (Binary64Facts.pow2_IZR 0), (Binary64Facts.pow2_IZR (0 + 1)) by lia.
    change (2 ^ 0)%Z with 1%Z. change (2 ^ (0 + 1))%Z with 2%Z.
    unfold double_0_2. lra. }
  rewrite (Binary64Facts.round64_binade _ 0 Hb).
  change (Z.max (0 - 52) (-1074)) with (-52)%Z.
  rewrite (pow2_neg_inv 52).
  change (2 ^ 52)%Z with 4503599627370496%Z.
  rewrite (Binary64Facts.rne_down _ 4503599627370496).
  - field.
  - unfold double_0_2. split; lra.
Qed.

(** C3 as stated fails: on the sample 1..6 at the binary64 percentile
    nearest to 0.2 the product 5 * p = 1 + 2^-54 rounds to 1, so the code
    returns the sample value 2 at index 1, which lies below the linearly
    interpolated quantile 2 + 2^-54; the smallest sample value at or above
    that quantile is 3. *)
Lemma compare_var_below_linear_quantile :
  exists rel : float,
    compare_var (map Fin [1; 2; 3; 4; 5; 6]) (Fin double_0_2) (Fin 7) = Ok (Fin 2, rel) /\
    2 < linear_quantile [1; 2; 3; 4; 5; 6] double_0_2.
Proof.
  assert (Hp : 0 <= double_0_2 <= 1) by (unfold double_0_2; lra).
  assert (Hidx : virtual_index_higher 6 double_0_2 = 1%Z).
  { unfold virtual_index_higher. change (6 - 1)%nat with 5%nat.
    replace (INR 5) with 5 by (cbn [INR]; lra).
    rewrite round64_double_0_2, round64_5_double_0_2.
    apply Zceil_eq. lra. }
  assert (Hsort : Rsort [1; 2; 3; 4; 5; 6] = [1; 2; 3; 4; 5; 6]).
  { cbn [Rsort Rinsert].
    repeat (rewrite Rleb_true by lra; cbn [Rinsert]). reflexivity. }
  assert (Hq : np_quantile_higher (map Fin [1; 2; 3; 4; 5; 6]) (Fin double_0_2)
               = Ok (Fin 2)).
  { unfold np_quantile_higher.
    rewrite (Rleb_true 0 double_0_2), (Rleb_true double_0_2 1) by lra.
    cbn [andb map existsb isnan orb length]. rewrite Hidx.
    change [Fin 1; Fin 2; Fin 3; Fin 4; Fin 5; Fin 6]
      with (map Fin [1; 2; 3; 4; 5; 6]).
    rewrite np_sort_Fin, Hsort. reflexivity. }
  destruct (compare_var_of_quantile (map Fin [1; 2; 3; 4; 5; 6]) (Fin double_0_2)
              (Fin 7) (Fin 2) ltac:(discriminate) Hq) as [rel Hrel].
  exists rel. split; [exact Hrel|].
  unfold linear_quantile. rewrite Hsort. cbn [length].
  change (6 - 1)%nat with 5%nat. replace (INR 5) with 5 by (cbn [INR]; lra).
  assert (Hf : Zfloor (5 * double_0_2) = 1%Z)
    by (apply Zfloor_eq; unfold double_0_2; lra).
  rewrite Hf. change (Z.to_nat 1) with 1%nat. cbn [Nat.add Nat.min nth].
  unfold double_0_2. lra.
Qed.

(** C3, amended. For a non-empty loss sample of at most 2^53 values and a
    percentile p in (0,1), [compare_var] returns (and does not raise) an
    empirical VaR that is a member of the sample: on a finite sample, the
    value of the sorted sample at index ceil of the binary64 product
    (n - 1) * p.  When p is a binary64 number and that product is exact, it
    is the smallest sample value that is at least the linearly interpolated
    quantile. *)
Theorem compare_var_upper_quantile
    (losses : list float) (p : R) (simulated : float) :
  losses <> [] -> (Z.of_nat (length losses) <= 2 ^ 53)%Z -> 0 < p < 1 ->
  exists v rel : float,
    compare_var losses (Fin p) simulated = Ok (v, rel) /\
    In v losses /\
    forall sample : list R, losses = map Fin sample ->
      exists y : R,
        v = Fin y /\ In y sample /\
        y = nth (Z.to_nat (virtual_index_higher (length sample) p)) (Rsort sample) 0 /\
        (Binary64.round64 p = p ->
         Binary64.round64 (INR (length sample - 1) * p) = INR (length sample - 1) * p ->
         linear_quantile sample p <= y /\
         forall z, In z sample -> linear_quantile sample p <= z -> y <= z).
Proof.
  intros Hne Hbig Hp.
  assert (Hp' : 0 <= p <= 1) by lra.
  destruct (np_quantile_higher_member losses p Hne Hbig Hp') as [v [Hq Hin]].
  destruct (compare_var_of_quantile losses (Fin p) simulated v Hne Hq) as [rel Hcv].
  exists v, rel. split; [exact Hcv|]. split; [exact Hin|].
  intros sample ->.
  assert (Hsne : sample <> []) by (intro E; apply Hne; rewrite E; reflexivity).
  rewrite length_map in Hbig.
  assert (Hlen : (0 < length sample)%nat)
    by (destruct sample; [contradiction | cbn; lia]).
  pose proof (virtual_index_range (length sample) p Hlen Hbig Hp') as Hidx.
  set (i := Z.to_nat (virtual_index_higher (length sample) p)) in *.
  assert (Hi : (i < length (Rsort sample))%nat).
  { rewrite (Permutation_length (Rsort_perm sample)). subst i. lia. }
  exists (nth i (Rsort sample) 0).
  assert (Hv : v = Fin (nth i (Rsort sample) 0)).
  { unfold np_quantile_higher in Hq.
    rewrite (Rleb_true 0 p), (Rleb_true p 1) in Hq by lra. cbn [andb] in Hq.
    assert (Hnan : existsb isnan (map Fin sample) = false).
    { clear. induction sample; [reflexivity | exact IHsample]. }
    rewrite Hnan, np_sort_Fin, length_map in Hq. fold i in Hq.
    injection Hq as <-.
    rewrite (nth_indep _ NaN (Fin 0)); [apply (map_nth Fin)|].
    rewrite length_map. exact Hi. }
  split; [exact Hv|]. split.
  - apply (Permutation_in _ (Rsort_perm sample)). apply nth_In. exact Hi.
  - split; [reflexivity|]. intros Ep Eh.
    pose proof (upper_quantile_finite sample p Hsne Hp') as Hup. cbv zeta in Hup.
    assert (Ei : i = Z.to_nat (Zceil (INR (length sample - 1) * p))).
    { subst i. unfold virtual_index_higher. rewrite Ep, Eh. reflexivity. }
    rewrite Ei. exact (proj2 Hup).
Qed.

Lemma compare_var_upper_quantile_witness :
  exists v rel : float,
    compare_var (map Fin [-50; -20; 0; 30; 100]) (Fin 0.8) (Fin 90) = Ok (v, rel) /\
    In v (map Fin [-50; -20; 0; 30; 100]) /\
    forall sample : list R, map Fin [-50; -20; 0; 30; 100] = map Fin sample ->
      exists y : R,
        v = Fin y /\ In y sample /\
        y = nth (Z.to_nat (virtual_index_higher (length sample) 0.8)) (Rsort sample) 0 /\
        (Binary64.round64 0.8 = 0.8 ->
         Binary64.round64 (INR (length sample - 1) * 0.8) = INR (length sample - 1) * 0.8 ->
         linear_quantile sample 0.8 <= y /\
         forall z, In z sample -> linear_quantile sample 0.8 <= z -> y <= z).
Proof.
  apply (compare_var_upper_quantile (map Fin [-50; -20; 0; 30; 100]) 0.8 (Fin 90)).
  - discriminate.
  - cbn [map length]. change (2 ^ 53)%Z with 9007199254740992%Z. lia.
  - lra.
Defined.

(** C8. On an empty loss sample [compare_var] returns NaN for both the
    empirical VaR and the relative gap, whatever the percentile (valid or
    not) and the simulated VaR are; nothing is raised. *)
Theorem compare_var_empty (percentile simulated : float) :
  compare_var [] percentile simulated = Ok (NaN, NaN) /\
  ~ raises (compare_var [] percentile simulated).
Proof.
  split; [reflexivity|]. intros [e He]. discriminate He.
Qed.

Lemma compare_var_no_division_fault (losses : list float) (q simulated : float) :
  compare_var losses q simulated <> Raise ZeroDivisionError.
Proof.
  unfold compare_var. destruct (length losses =? 0)%nat; [discriminate|].
  destruct (np_quantile_higher losses q) as [v|e] eqn:Hq; cbn [rbind].
  - unfold fne, py_truediv. destruct (feq v (Fin 0)); cbn [negb rbind]; discriminate.
  - unfold np_quantile_higher in Hq.
    destruct q as [p| |]; try (injection Hq as <-; discriminate).
    destruct (Rleb 0 p && Rleb p 1); [|injection Hq as <-; discriminate].
    destruct (existsb isnan losses); discriminate.
Qed.

Lemma option_relative_error_total (mc_price analytic : float) :
  exists rel_err, option_relative_error mc_price analytic
                  = Ok (fsub mc_price analytic, rel_err).
Proof.
  unfold option_relative_error, fne, py_truediv.
  destruct (feq analytic (Fin 0)); cbn [negb rbind]; eexists; reflexivity.
Qed.

(** C7. A zero reference gives the infinity sentinel: when the empirical
    VaR of a non-empty sample is exactly zero, [compare_var] returns it with
    an infinite relative gap, and the option check returns an infinite
    relative error against an analytic price of zero; neither computation
    raises a division fault (the option check raises nothing at all). *)
Theorem zero_reference_relative_difference_is_infinite
    (losses : list float) (percentile simulated mc_price : float) :
  losses <> [] ->
  np_quantile_higher losses percentile = Ok (Fin 0) ->
  compare_var losses percentile simulated = Ok (Fin 0, PInf) /\
  option_relative_error mc_price (Fin 0) = Ok (fsub mc_price (Fin 0), PInf) /\
  (forall l q s, compare_var l q s <> Raise ZeroDivisionError) /\
  (forall m a, ~ raises (option_relative_error m a)).
Proof.
  intros Hne Hq. split; [|split; [|split]].
  - unfold compare_var. destruct losses as [|x l]; [contradiction|].
    cbn [length Nat.eqb]. rewrite Hq. cbn [rbind].
    unfold fne, feq. rewrite (Reqb_true 0 0 eq_refl). reflexivity.
  - unfold option_relative_error, fne, feq.
    rewrite (Reqb_true 0 0 eq_refl). reflexivity.
  - exact compare_var_no_division_fault.
  - intros m a [e He].
    destruct (option_relative_error_total m a) as [r Hr].
    rewrite Hr in He. discriminate.
Qed.

Lemma zero_reference_relative_difference_is_infinite_witness :
  compare_var [Fin 0] (Fin 0.5) (Fin 7) = Ok (Fin 0, PInf) /\
  option_relative_error (Fin 7) (Fin 0) = Ok (fsub (Fin 7) (Fin 0), PInf).
Proof.
  assert (Hq : np_quantile_higher [Fin 0] (Fin 0.5) = Ok (Fin 0)).
  { unfold np_quantile_higher.
    rewrite (Rleb_true 0 0.5), (Rleb_true 0.5 1) by lra.
    cbn [andb existsb isnan orb length].
    assert (Hidx : virtual_index_higher 1 0.5 = 0%Z).
    { unfold virtual_index_higher. cbn [Nat.sub INR].
      rewrite Rmult_0_l, Binary64Facts.round64_0. apply Zceil_eq. lra. }
    rewrite Hidx. reflexivity. }
  pose proof (zero_reference_relative_difference_is_infinite
                [Fin 0] (Fin 0.5) (Fin 7) (Fin 7)
                ltac:(discriminate) Hq) as H.
  exact (conj (proj1 H) (proj1 (proj2 H))).
Defined.

(* ================================================================== *)
(** * Properties of the engine adapter and of the sweep *)
(* ================================================================== *)

Lemma string_append_assoc (a b c : string) : ((a ++ b) ++ c = a ++ (b ++ c))%string.
Proof. induction a as [|ch a IH]; cbn; [reflexivity | rewrite IH; reflexivity]. Qed.

Lemma string_append_nil_r (a : string) : (a ++ "" = a)%string.
Proof. induction a as [|ch a IH]; cbn; [reflexivity | rewrite IH; reflexivity]. Qed.

Lemma str_contains_suffix (pre s : string) : str_contains s (pre ++ s).
Proof. exists pre, ""%string. rewrite string_append_nil_r. reflexivity. Qed.

Lemma str_contains_empty (s : string) : str_contains "" s.
Proof. exists ""%string, s. reflexivity. Qed.

Lemma dict_get_set_same (d : payload) (k : string) (v : value) :
  dict_get (dict_set d k v) k = Some v.
Proof.
  induction d as [|[k0 v0] d IH]; cbn.
  - rewrite String.eqb_refl. reflexivity.
  - destruct (String.eqb k0 k) eqn:E; cbn; rewrite E; [reflexivity | exact IH].
Qed.

Lemma dict_get_set_other (d : payload) (k k' : string) (v : value) :
  k <> k' -> dict_get (dict_set d k v) k' = dict_get d k'.
Proof.
  intros Hne. induction d as [|[k0 v0] d IH]; cbn.
  - destruct (String.eqb k k') eqn:E; [|reflexivity].
    apply String.eqb_eq in E. contradiction.
  - destruct (String.eqb k0 k) eqn:E; cbn.
    + apply String.eqb_eq in E. subst k0.
      destruct (String.eqb k k') eqn:E'; [|reflexivity].
      apply String.eqb_eq in E'. contradiction.
    + destruct (String.eqb k0 k'); [reflexivity | exact IH].
Qed.




Lemma py_range_length (n : Z) : length (py_range n) = Z.to_nat n.
Proof. unfold py_range. rewrite length_map, length_seq. reflexivity. Qed.

Section EngineProperties.

Variable World : Type.
Variable path_exists : string -> World -> bool.
Variable subprocess_run : list string -> World -> result CompletedProcess * World.
Variable json_loads : string -> result json.
Variable float_repr : float -> string.
Variable float_of_str : string -> option float.

Local Abbreviation run_risk_sim' :=
  (run_risk_sim World path_exists subprocess_run json_loads float_repr).
Local Abbreviation sweep_loop' :=
  (sweep_loop World path_exists subprocess_run json_loads float_repr float_of_str).
Local Abbreviation convergence_sweep' :=
  (convergence_sweep World path_exists subprocess_run json_loads float_repr
     float_of_str).
Local Abbreviation build_cli' := (build_cli float_repr).

(** What one call of the adapter does, case by case. *)
Lemma run_risk_sim_cases (binary command : string) (args : payload) (st : state World) :
  run_risk_sim' binary command args st =
  if negb (path_exists binary (world st)) then
    (Raise (SystemExit ("risk_sim binary not found at " ++ binary
                        ++ ". Build the project first.")), st)
  else
    let cli := build_cli' binary command args in
    let st' w := {| world := w; invocations := invocations st ++ [cli] |} in
    match subprocess_run cli (world st) with
    | (Ok cp, w) =>
        if negb (returncode cp =? 0)%Z then
          (Raise (RuntimeError ("risk_sim failed (" ++ command ++ "): "
                                ++ str_or (stderr cp) (stdout cp))), st' w)
        else (json_loads (stdout cp), st' w)
    | (Raise e, w) => (Raise e, st' w)
    end.
Proof.
  unfold run_risk_sim, bind, binary_exists, subprocess, raise, lift.
  destruct (path_exists binary (world st)); cbn [negb]; [|reflexivity].
  cbv zeta.
  destruct (subprocess_run (build_cli' binary command args) (world st))
    as [[cp|e] w]; [|reflexivity].
  destruct (negb (returncode cp =? 0)%Z); reflexivity.
Qed.

Lemma run_risk_sim_nonzero_exit (binary command : string) (args : payload)
    (st : state World) (cp : CompletedProcess) (w : World) :
  path_exists binary (world st) = true ->
  subprocess_run (build_cli' binary command args) (world st) = (Ok cp, w) ->
  returncode cp <> 0%Z ->
  fst (run_risk_sim' binary command args st)
  = Raise (RuntimeError ("risk_sim failed (" ++ command ++ "): "
                         ++ str_or (stderr cp) (stdout cp))).
Proof.
  intros Hex Hrun Hrc. rewrite run_risk_sim_cases, Hex. cbn [negb].
  cbv zeta. rewrite Hrun.
  destruct (Z.eqb_spec (returncode cp) 0) as [E|_]; [contradiction|].
  reflexivity.
Qed.

(** C9. When the engine process exits with a non-zero status, the adapter
    raises a RuntimeError (the execution-category error) whose message
    contains the captured standard error verbatim. *)
Theorem nonzero_exit_raises_with_stderr (binary command : string) (args : payload)
    (st : state World) (cp : CompletedProcess) (w : World) :
  path_exists binary (world st) = true ->
  subprocess_run (build_cli' binary command args) (world st) = (Ok cp, w) ->
  returncode cp <> 0%Z ->
  exists msg : string,
    fst (run_risk_sim' binary command args st) = Raise (RuntimeError msg) /\
    str_contains (stderr cp) msg.
Proof.
  intros Hex Hrun Hrc. eexists. split.
  - apply (run_risk_sim_nonzero_exit binary command args st cp w); assumption.
  - destruct (stderr cp) as [|c s] eqn:E.
    + apply str_contains_empty.
    + cbn [str_or]. rewrite <- !string_append_assoc. apply str_contains_suffix.
Qed.

(** C10. When the engine process exits with a non-zero status and an empty
    standard error, the message of the RuntimeError contains the captured
    standard output instead. *)
Theorem nonzero_exit_falls_back_to_stdout (binary command : string) (args : payload)
    (st : state World) (cp : CompletedProcess) (w : World) :
  path_exists binary (world st) = true ->
  subprocess_run (build_cli' binary command args) (world st) = (Ok cp, w) ->
  returncode cp <> 0%Z ->
  stderr cp = ""%string ->
  exists msg : string,
    fst (run_risk_sim' binary command args st) = Raise (RuntimeError msg) /\
    str_contains (stdout cp) msg /\
    msg = ("risk_sim failed (" ++ command ++ "): " ++ stdout cp)%string.
Proof.
  intros Hex Hrun Hrc Herr. eexists. split; [|split].
  - apply (run_risk_sim_nonzero_exit binary command args st cp w); assumption.
  - rewrite Herr. cbn [str_or]. rewrite <- !string_append_assoc.
    apply str_contains_suffix.
  - rewrite Herr. reflexivity.
Qed.

(** One call of the adapter hands at most one command line to the process
    runner, and exactly one when it returns a response. *)
Lemma run_risk_sim_invocations (binary command : string) (args : payload)
    (st : state World) :
  let r := run_risk_sim' binary command args st in
  (invocations (snd r) = invocations st /\ (forall j, fst r <> Ok j)) \/
  invocations (snd r) = (invocations st ++ [build_cli' binary command args])%list.
Proof.
  cbv zeta. rewrite run_risk_sim_cases.
  destruct (path_exists binary (world st)); cbn [negb].
  - right. cbv zeta.
    destruct (subprocess_run (build_cli' binary command args) (world st))
      as [[cp|e] w]; [|reflexivity].
    destruct (negb (returncode cp =? 0)%Z); reflexivity.
  - left. split; [reflexivity | discriminate].
Qed.

(** The loop issues the requests of a prefix of its indices, in order, and
    of all of them when it returns. *)
Lemma sweep_loop_invocations (args : Namespace) (base : payload) (indices : list Z) :
  forall (st st' : state World) (res : result (list SweepPoint)),
  sweep_loop' args base indices st = (res, st') ->
  exists k : nat,
    (k <= length indices)%nat /\
    invocations st'
      = (invocations st
         ++ map (fun i => build_cli' (args_binary args) "option"
                            (sweep_payload args base i))
                (firstn k indices))%list /\
    ((exists points, res = Ok points) -> k = length indices).
Proof.
  induction indices as [|i rest IH]; intros st st' res Hrun.
  - injection Hrun as <- <-. exists 0%nat. cbn. rewrite app_nil_r.
    split; [lia|]. split; reflexivity.
  - cbn [sweep_loop] in Hrun. unfold bind at 1 in Hrun.
    pose proof (run_risk_sim_invocations (args_binary args) "option"
                  (sweep_payload args base i) st) as Hcall.
    cbv zeta in Hcall.
    destruct (run_risk_sim' (args_binary args) "option"
                (sweep_payload args base i) st) as [[response|e] st1] eqn:Er;
      cbn [fst snd] in Hcall.
    + assert (Hst1 : invocations st1
                     = (invocations st
                        ++ [build_cli' (args_binary args) "option"
                              (sweep_payload args base i)])%list).
      { destruct Hcall as [[_ Hno]|H]; [|exact H].
        exfalso. apply (Hno response). reflexivity. }
      unfold bind at 1, lift at 1 in Hrun.
      destruct (response_price float_of_str response) as [price|e].
      * unfold bind at 1, lift at 1 in Hrun.
        destruct (response_std_err float_of_str response) as [se|e].
        -- unfold bind at 1 in Hrun.
           destruct (sweep_loop' args base rest st1) as [[points|e] st2] eqn:Erest.
           ++ destruct (IH st1 st2 (Ok points) Erest) as [k [Hk [Htr Hok]]].
              unfold ret in Hrun. injection Hrun as <- <-.
              exists (S k). cbn [length firstn map]. split; [lia|]. split.
              ** rewrite Htr, Hst1, <- app_assoc. reflexivity.
              ** intros _. f_equal. apply Hok. eexists. reflexivity.
           ++ destruct (IH st1 st2 (Raise e) Erest) as [k [Hk [Htr Hok]]].
              injection Hrun as <- <-.
              exists (S k). cbn [length firstn map]. split; [lia|]. split.
              ** rewrite Htr, Hst1, <- app_assoc. reflexivity.
              ** intros [points Hp]. discriminate.
        -- injection Hrun as <- <-.
           exists 1%nat. cbn [length firstn map]. split; [lia|].
           split; [exact Hst1|]. intros [points Hp]. discriminate.
      * injection Hrun as <- <-.
        exists 1%nat. cbn [length firstn map]. split; [lia|].
        split; [exact Hst1|]. intros [points Hp]. discriminate.
    + injection Hrun as <- <-. destruct Hcall as [[H _]|H].
      * exists 0%nat. cbn [length firstn map]. split; [lia|].
        split; [rewrite app_nil_r; exact H|]. intros [points Hp]. discriminate.
      * exists 1%nat. cbn [length firstn map]. split; [lia|].
        split; [exact H|]. intros [points Hp]. discriminate.
Qed.

(** Against an engine that is present, always exits with status 0 and
    always prints a document holding a price, the loop runs to its end and
    reports one point per index. *)
Lemma sweep_loop_completes (args : Namespace) (base : payload) (indices : list Z) :
  (forall w, path_exists (args_binary args) w = true) ->
  (forall cli w, exists cp w',
      subprocess_run cli w = (Ok cp, w') /\ returncode cp = 0%Z /\
      exists j p e, json_loads (stdout cp) = Ok j /\
                    response_price float_of_str j = Ok p /\
                    response_std_err float_of_str j = Ok e) ->
  forall st : state World,
  exists points st',
    sweep_loop' args base indices st = (Ok points, st') /\
    length points = length indices /\
    map sweep_paths points = map (fun i => args_paths args * (i + 1))%Z indices.
Proof.
  intros Hex Hengine. induction indices as [|i rest IH]; intros st.
  - exists [], st. split; [reflexivity|]. split; reflexivity.
  - cbn [sweep_loop]. unfold bind at 1. rewrite run_risk_sim_cases, Hex.
    cbn [negb]. cbv zeta.
    destruct (Hengine (build_cli' (args_binary args) "option"
                         (sweep_payload args base i)) (world st))
      as [cp [w' [Hrun [Hrc [j [p [e [Hj [Hp He]]]]]]]]].
    rewrite Hrun, Hrc, Hj. cbn [Z.eqb negb].
    unfold bind at 1, lift at 1. rewrite Hp.
    unfold bind at 1, lift at 1. rewrite He.
    unfold bind at 1.
    destruct (IH {| world := w';
                    invocations := (invocations st
                      ++ [build_cli' (args_binary args) "option"
                            (sweep_payload args base i)])%list |})
      as [points [st' [Hloop [Hlen Hpaths]]]].
    rewrite Hloop. unfold ret. eexists. eexists. split; [reflexivity|].
    cbn [length map sweep_paths]. split; [lia | f_equal; exact Hpaths].
Qed.




End EngineProperties.

Lemma nonzero_exit_raises_with_stderr_witness :
  exists msg : string,
    fst (run_risk_sim unit Fake.path_exists (Fake.engine_exit 1 "" "boom")
           Fake.json_loads Fake.float_repr "build/risk_sim" "option" [] Fake.init)
      = Raise (RuntimeError msg) /\
    str_contains "boom" msg.
Proof.
  apply (nonzero_exit_raises_with_stderr unit Fake.path_exists
           (Fake.engine_exit 1 "" "boom") Fake.json_loads Fake.float_repr
           "build/risk_sim" "option" [] Fake.init
           {| returncode := 1; stdout := ""; stderr := "boom" |} tt).
  - reflexivity.
  - reflexivity.
  - discriminate.
Defined.

(** The case of the specification: exit status 1 with "boom" on standard
    error. *)
Example run_risk_sim_boom :
  fst (run_risk_sim unit Fake.path_exists (Fake.engine_exit 1 "" "boom")
         Fake.json_loads Fake.float_repr "build/risk_sim" "option" [] Fake.init)
  = Raise (RuntimeError "risk_sim failed (option): boom").
Proof. reflexivity. Qed.

Lemma nonzero_exit_falls_back_to_stdout_witness :
  exists msg : string,
    fst (run_risk_sim unit Fake.path_exists (Fake.engine_exit 2 "usage: risk_sim" "")
           Fake.json_loads Fake.float_repr "build/risk_sim" "var" [] Fake.init)
      = Raise (RuntimeError msg) /\
    str_contains "usage: risk_sim" msg /\
    msg = "risk_sim failed (var): usage: risk_sim"%string.
Proof.
  apply (nonzero_exit_falls_back_to_stdout unit Fake.path_exists
           (Fake.engine_exit 2 "usage: risk_sim" "") Fake.json_loads Fake.float_repr
           "build/risk_sim" "var" [] Fake.init
           {| returncode := 2; stdout := "usage: risk_sim"; stderr := "" |} tt).
  - reflexivity.
  - reflexivity.
  - discriminate.
  - reflexivity.
Defined.


(** The sweep of the specification: 3 iterations, 1000 base paths; the
    requests carry 1000, 2000, 3000 paths and seeds 100, 101, 102, in that
    order. *)
Example convergence_sweep_three_iterations :
  let args := Fake.args 1000 3 in
  let base := option_payload args (Fin 100) (Fin 100) (Fin 0.2) in
  map paths_and_seed
    (invocations
       (snd (convergence_sweep unit Fake.path_exists Fake.engine_ok Fake.json_loads
               Fake.float_repr Fake.float_of_str args base Fake.init)))
  = [ ["--paths=1000"; "--seed=100"];
      ["--paths=2000"; "--seed=101"];
      ["--paths=3000"; "--seed=102"] ]%string.
Proof. reflexivity. Qed.


(* ================================================================== *)
(** * Further properties of the oracle *)
(* ================================================================== *)

Lemma rbind_raise_inv {A B : Type} (m : result A) (k : A -> result B) (e : exn) :
  rbind m k = Raise e ->
  m = Raise e \/ exists a, m = Ok a /\ k a = Raise e.
Proof.
  destruct m as [a|e']; cbn; intros H.
  - right. exists a. split; [reflexivity | exact H].
  - left. injection H as ->. reflexivity.
Qed.

Lemma math_sqrt_raise (a : float) (e : exn) : math_sqrt a = Raise e -> e = ValueError.
Proof.
  destruct a as [x|[|]|]; cbn; try discriminate.
  - destruct (Rltb x 0); [intros [= <-]; reflexivity | discriminate].
  - intros [= <-]. reflexivity.
Qed.

Lemma math_log_raise (a : float) (e : exn) : math_log a = Raise e -> e = ValueError.
Proof.
  destruct a as [x|[|]|]; cbn; try discriminate.
  - destruct (Rleb x 0); [intros [= <-]; reflexivity | discriminate].
  - intros [= <-]. reflexivity.
Qed.

Lemma py_truediv_raise (a b : float) (e : exn) :
  py_truediv a b = Raise e -> e = ZeroDivisionError.
Proof.
  unfold py_truediv. destruct (feq b (Fin 0)); [|discriminate].
  intros [= <-]. reflexivity.
Qed.

Lemma math_exp_raise (a : float) (e : exn) : math_exp a = Raise e -> e = OverflowError.
Proof.
  destruct a as [x|[|]|]; cbn; try discriminate.
  destruct (Rleb DBL_OVERFLOW (exp x)); [intros [= <-]; reflexivity | discriminate].
Qed.

(** The logarithm of a quotient that is not positive is a domain error,
    whether the quotient is in range, underflows to zero or overflows to
    minus infinity. *)
Lemma math_log_fnorm_nonpos (x : R) : x <= 0 -> math_log (fnorm x) = Raise ValueError.
Proof.
  intros Hx. unfold fnorm.
  destruct (Rleb DBL_OVERFLOW (Rabs x)) eqn:Eo.
  - apply Rleb_spec in Eo. pose proof DBL_OVERFLOW_large as Hl.
    assert (Hneg : x < 0).
    { destruct (Req_dec x 0) as [E|E]; [|lra].
      rewrite E, Rabs_R0 in Eo. lra. }
    rewrite (Rltb_true x 0 Hneg). reflexivity.
  - destruct (Rleb (Rabs x) DBL_TINY).
    + cbn. rewrite (Rleb_true 0 0) by lra. reflexivity.
    + cbn. rewrite (Rleb_true x 0 Hx). reflexivity.
Qed.

Lemma norm_cdf_total (x : float) :
  norm_cdf x = Ok (fmul (Fin 0.5) (fadd (Fin 1.0)
                     (math_erf (fdiv_ieee x (Fin (sqrt 2.0)))))).
Proof.
  unfold norm_cdf, math_sqrt. rewrite Rltb_false by lra. cbn [rbind].
  unfold py_truediv, feq. rewrite (Reqb_false _ _ sqrt2_neq_0). reflexivity.
Qed.

(** The square root of a maturity that passed the guard is never an error:
    the maturity is positive, infinite or NaN. *)
Lemma math_sqrt_after_guard (maturity : float) :
  fle maturity (Fin 0) = false -> exists r, math_sqrt maturity = Ok r.
Proof.
  destruct maturity as [x|[|]|]; cbn; intros H; try discriminate.
  - assert (Hx : 0 < x).
    { destruct (Rle_dec x 0) as [Hle|Hgt]; [|lra].
      rewrite (Rleb_true x 0 Hle) in H. discriminate. }
    rewrite Rltb_false by lra. eexists. reflexivity.
  - eexists. reflexivity.
  - eexists. reflexivity.
Qed.

Lemma guard_false (vol maturity : float) :
  fle maturity (Fin 0) = false -> fle vol (Fin 0) = false ->
  fle maturity (Fin 0) || fle vol (Fin 0) = false.
Proof. intros -> ->. reflexivity. Qed.

(** X1. A zero strike on the non-degenerate path (maturity and volatility
    not <= 0, NaN included) raises ZeroDivisionError, for a call and for a
    put, whatever the other arguments are. *)
Theorem zero_strike_raises_zero_division
    (spot rate dividend vol maturity : float) (is_call : bool) :
  fle maturity (Fin 0) = false -> fle vol (Fin 0) = false ->
  black_scholes_price spot (Fin 0) rate dividend vol maturity is_call
  = Raise ZeroDivisionError.
Proof.
  intros Hm Hv. unfold black_scholes_price. rewrite (guard_false _ _ Hm Hv).
  destruct (math_sqrt_after_guard maturity Hm) as [r ->]. cbn [rbind].
  unfold py_truediv at 1. unfold feq. rewrite (Reqb_true 0 0 eq_refl).
  reflexivity.
Qed.

Lemma zero_strike_raises_zero_division_witness :
  black_scholes_price (Fin 100) (Fin 0) (Fin 0.02) (Fin 0.01) (Fin 0.2) (Fin 1) true
  = Raise ZeroDivisionError.
Proof.
  apply (zero_strike_raises_zero_division
           (Fin 100) (Fin 0.02) (Fin 0.01) (Fin 0.2) (Fin 1) true).
  - apply Rleb_false. lra.
  - apply Rleb_false. lra.
Defined.

(** X2. On the non-degenerate path a finite spot and a finite non-zero
    strike whose ratio is not positive (spot zero, or of the opposite sign)
    raise ValueError: the logarithm is outside its domain. *)
Theorem nonpositive_ratio_raises_value_error
    (S K : R) (rate dividend vol maturity : float) (is_call : bool) :
  fle maturity (Fin 0) = false -> fle vol (Fin 0) = false ->
  K <> 0 -> S / K <= 0 ->
  black_scholes_price (Fin S) (Fin K) rate dividend vol maturity is_call
  = Raise ValueError.
Proof.
  intros Hm Hv HK Hratio. unfold black_scholes_price.
  rewrite (guard_false _ _ Hm Hv).
  destruct (math_sqrt_after_guard maturity Hm) as [r ->]. cbn [rbind].
  unfold py_truediv at 1. unfold feq. rewrite (Reqb_false K 0 HK). cbn [rbind].
  unfold fdiv_ieee at 1. rewrite (Reqb_false K 0 HK).
  rewrite (math_log_fnorm_nonpos _ Hratio). reflexivity.
Qed.

Lemma nonpositive_ratio_raises_value_error_witness :
  black_scholes_price (Fin 0) (Fin 100) (Fin 0.02) (Fin 0.01) (Fin 0.2) (Fin 1) false
  = Raise ValueError.
Proof.
  apply (nonpositive_ratio_raises_value_error
           0 100 (Fin 0.02) (Fin 0.01) (Fin 0.2) (Fin 1) false).
  - apply Rleb_false. lra.
  - apply Rleb_false. lra.
  - lra.
  - lra.
Defined.

(** X3. Whatever its arguments, the oracle raises nothing but
    ZeroDivisionError (a zero strike or a zero vol * sqrt(T)), ValueError
    (square root or logarithm outside its domain) and OverflowError (a
    discount factor beyond the binary64 range). *)
Theorem black_scholes_price_exceptions
    (spot strike rate dividend vol maturity : float) (is_call : bool) (e : exn) :
  black_scholes_price spot strike rate dividend vol maturity is_call = Raise e ->
  e = ZeroDivisionError \/ e = ValueError \/ e = OverflowError.
Proof.
  unfold black_scholes_price.
  destruct (fle maturity (Fin 0) || fle vol (Fin 0)); [discriminate|].
  intros H.
  apply rbind_raise_inv in H. destruct H as [H|[sqrt_t [_ H]]].
  { right. left. exact (math_sqrt_raise _ _ H). }
  apply rbind_raise_inv in H. destruct H as [H|[ratio [_ H]]].
  { left. exact (py_truediv_raise _ _ _ H). }
  apply rbind_raise_inv in H. destruct H as [H|[log_ratio [_ H]]].
  { right. left. exact (math_log_raise _ _ H). }
  apply rbind_raise_inv in H. destruct H as [H|[d1 [_ H]]].
  { left. exact (py_truediv_raise _ _ _ H). }
  cbv zeta in H.
  apply rbind_raise_inv in H. destruct H as [H|[disc_rate [_ H]]].
  { right. right. exact (math_exp_raise _ _ H). }
  apply rbind_raise_inv in H. destruct H as [H|[disc_div [_ H]]].
  { right. right. exact (math_exp_raise _ _ H). }
  rewrite !norm_cdf_total in H.
  destruct is_call; discriminate H.
Qed.

Lemma black_scholes_price_exceptions_witness :
  ZeroDivisionError = ZeroDivisionError \/ ZeroDivisionError = ValueError \/
  ZeroDivisionError = OverflowError.
Proof.
  apply (black_scholes_price_exceptions
           (Fin 100) (Fin 0) (Fin 0.02) (Fin 0.01) (Fin 0.2) (Fin 1) true).
  unfold black_scholes_price, fle.
  rewrite !Rleb_false by lra. cbn [orb].
  unfold math_sqrt. rewrite Rltb_false by lra. cbn [rbind].
  unfold py_truediv at 1. unfold feq. rewrite (Reqb_true 0 0 eq_refl).
  reflexivity.
Defined.

(** X4. On the degenerate path the price is never NaN and never negative,
    even when spot or strike is NaN or infinite. *)
Theorem degenerate_price_nonnegative
    (spot strike rate dividend vol maturity : float) (is_call : bool) :
  fle maturity (Fin 0) = true \/ fle vol (Fin 0) = true ->
  exists v : float,
    black_scholes_price spot strike rate dividend vol maturity is_call = Ok v /\
    isnan v = false /\ fle (Fin 0) v = true.
Proof.
  intros Hguard.
  assert (Hcond : fle maturity (Fin 0) || fle vol (Fin 0) = true)
    by (apply orb_true_iff; exact Hguard).
  assert (Hmax : forall x, isnan (py_max (Fin 0.0) x) = false /\
                           fle (Fin 0) (py_max (Fin 0.0) x) = true).
  { intro x. unfold py_max. destruct (flt (Fin 0.0) x) eqn:E.
    - destruct x as [y|[|]|]; cbn in E |- *; try discriminate.
      + apply Rltb_spec in E. split; [reflexivity | apply Rleb_true; lra].
      + split; reflexivity.
    - cbn. split; [reflexivity | apply Rleb_true; lra]. }
  unfold black_scholes_price. rewrite Hcond.
  eexists. split; [reflexivity|]. destruct is_call; apply Hmax.
Qed.

Lemma degenerate_price_nonnegative_witness :
  exists v : float,
    black_scholes_price NaN (Fin 95) (Fin 0.02) (Fin 0.01) (Fin 0) (Fin 1) true = Ok v /\
    isnan v = false /\ fle (Fin 0) v = true.
Proof.
  apply (degenerate_price_nonnegative NaN (Fin 95) (Fin 0.02) (Fin 0.01)
           (Fin 0) (Fin 1) true).
  right. apply Rleb_true. lra.
Defined.

(** X5. On the degenerate path with finite spot S and strike K, the call
    price minus the put price is S - K (parity of the intrinsic values). *)
Theorem degenerate_parity (S K : R) (rate dividend vol maturity : float) :
  fle maturity (Fin 0) = true \/ fle vol (Fin 0) = true ->
  exists c p : R,
    black_scholes_price (Fin S) (Fin K) rate dividend vol maturity true = Ok (Fin c) /\
    black_scholes_price (Fin S) (Fin K) rate dividend vol maturity false = Ok (Fin p) /\
    c - p = S - K.
Proof.
  intros Hguard.
  assert (Hcond : fle maturity (Fin 0) || fle vol (Fin 0) = true)
    by (apply orb_true_iff; exact Hguard).
  exists (Rmax 0 (S + - K)), (Rmax 0 (K + - S)).
  unfold black_scholes_price. rewrite Hcond. cbn [fsub fneg fadd].
  rewrite !py_max_Fin. split; [reflexivity|]. split; [reflexivity|].
  unfold Rmax. destruct (Rle_dec 0 (S + - K)), (Rle_dec 0 (K + - S)); lra.
Qed.

Lemma degenerate_parity_witness :
  exists c p : R,
    black_scholes_price (Fin 100) (Fin 95) (Fin 0.02) (Fin 0.01) (Fin 0.2) (Fin 0) true
      = Ok (Fin c) /\
    black_scholes_price (Fin 100) (Fin 95) (Fin 0.02) (Fin 0.01) (Fin 0.2) (Fin 0) false
      = Ok (Fin p) /\
    c - p = 100 - 95.
Proof.
  apply (degenerate_parity 100 95 (Fin 0.02) (Fin 0.01) (Fin 0.2) (Fin 0)).
  left. apply Rleb_true. lra.
Defined.

(** X6. A NaN volatility is not caught by the guard (NaN <= 0 is false):
    with positive finite spot, strike and maturity, a quotient spot / strike
    that does not underflow and finite rates whose discount factors do not
    overflow, the closed form is evaluated and the price is NaN, for a call
    and for a put. *)
Theorem nan_volatility_gives_nan_price
    (S K T r q : R) (is_call : bool) :
  0 < S -> 0 < K -> 0 < T ->
  DBL_TINY < S / K ->
  exp (- r * T) < DBL_OVERFLOW -> exp (- q * T) < DBL_OVERFLOW ->
  black_scholes_price (Fin S) (Fin K) (Fin r) (Fin q) NaN (Fin T) is_call = Ok NaN.
Proof.
  intros HS HK HT Hratio Hr Hq.
  assert (Hmul : forall a, fmul a NaN = NaN) by (intro a; destruct a; reflexivity).
  assert (Hadd : forall a, fadd a NaN = NaN) by (intro a; destruct a as [?|[|]|]; reflexivity).
  assert (Hdiv : forall a, py_truediv a NaN = Ok NaN).
  { intro a. unfold py_truediv. cbn [feq]. destruct a; reflexivity. }
  assert (Hlog : exists l, math_log (fnorm (S / K)) = Ok l).
  { pose proof DBL_TINY_pos as Htiny. unfold fnorm.
    rewrite (Rabs_right (S / K)) by lra.
    destruct (Rleb DBL_OVERFLOW (S / K)).
    - rewrite (Rltb_false (S / K) 0) by lra. eexists. reflexivity.
    - rewrite (Rleb_false (S / K) DBL_TINY) by lra. cbn.
      rewrite (Rleb_false (S / K) 0) by lra. eexists. reflexivity. }
  destruct Hlog as [l Hl].
  unfold black_scholes_price, fle. rewrite (Rleb_false T 0 HT). cbn [orb].
  unfold math_sqrt. rewrite (Rltb_false T 0) by lra. cbn [rbind].
  unfold py_truediv at 1. unfold feq. rewrite (Reqb_false K 0) by lra.
  cbn [rbind]. unfold fdiv_ieee at 1. rewrite (Reqb_false K 0) by lra.
  rewrite Hl. cbn [rbind]. rewrite !Hmul. rewrite Hdiv. cbn [rbind fneg fmul].
  unfold math_exp.
  rewrite (Rleb_false _ _ Hr), (Rleb_false _ _ Hq). cbn [rbind].
  rewrite !norm_cdf_total. cbn [fsub fneg fadd fdiv_ieee math_erf fmul rbind].
  destruct is_call; rewrite !Hmul; reflexivity.
Qed.

Lemma nan_volatility_gives_nan_price_witness :
  black_scholes_price (Fin 100) (Fin 95) (Fin 0.02) (Fin 0.01) NaN (Fin 1) true = Ok NaN.
Proof.
  pose proof DBL_TINY_small as Htiny. pose proof DBL_OVERFLOW_large as Hlarge.
  pose proof (exp_nonpos_bounds (- (0.02) * 1) ltac:(lra)) as Hr.
  pose proof (exp_nonpos_bounds (- (0.01) * 1) ltac:(lra)) as Hq.
  apply (nan_volatility_gives_nan_price 100 95 1 0.02 0.01 true); lra.
Defined.

(** X7. With a maturity or volatility <= 0 and a finite spot not above the
    strike (the at-the-money default included), the analytic call price is
    exactly zero, so the option check reports an infinite relative error
    whatever the Monte-Carlo price is. *)
Theorem degenerate_call_relative_error_infinite
    (S K : R) (rate dividend vol maturity mc_price : float) :
  fle maturity (Fin 0) = true \/ fle vol (Fin 0) = true ->
  S <= K ->
  exists analytic : float,
    black_scholes_price (Fin S) (Fin K) rate dividend vol maturity true = Ok analytic /\
    option_relative_error mc_price analytic = Ok (fsub mc_price analytic, PInf).
Proof.
  intros Hguard HSK.
  assert (Hcond : fle maturity (Fin 0) || fle vol (Fin 0) = true)
    by (apply orb_true_iff; exact Hguard).
  unfold black_scholes_price. rewrite Hcond. cbn [fsub fneg fadd].
  eexists. split; [reflexivity|].
  unfold py_max, flt. rewrite Rltb_false by lra.
  unfold option_relative_error, fne, feq.
  rewrite (Reqb_true 0.0 0) by lra. reflexivity.
Qed.

Lemma degenerate_call_relative_error_infinite_witness :
  exists analytic : float,
    black_scholes_price (Fin 100) (Fin 100) (Fin 0.02) (Fin 0.01) (Fin 0.2) (Fin 0) true
      = Ok analytic /\
    option_relative_error (Fin 3) analytic = Ok (fsub (Fin 3) analytic, PInf).
Proof.
  apply (degenerate_call_relative_error_infinite 100 100 (Fin 0.02) (Fin 0.01)
           (Fin 0.2) (Fin 0) (Fin 3)).
  - left. apply Rleb_true. lra.
  - lra.
Defined.

(* ================================================================== *)
(** * Further properties of the estimator *)
(* ================================================================== *)

Lemma Forall_removelast {A : Type} (P : A -> Prop) (l : list A) :
  Forall P l -> Forall P (removelast l).
Proof.
  intros H. induction H as [|x l Hx Hl IH]; [constructor|].
  destruct l as [|y l]; [constructor|].
  change (Forall P (x :: removelast (y :: l))). constructor; assumption.
Qed.

(** A quotient is unchanged when both operands are scaled by the same
    positive factor, so it falls into the same range case. *)
Lemma zip_div_scale (c : R) (l1 l2 : list R) :
  0 < c -> Forall (Rlt 0) l2 ->
  zip_with fdiv_ieee (map Fin (map (Rmult c) l1)) (map Fin (map (Rmult c) l2))
  = zip_with fdiv_ieee (map Fin l1) (map Fin l2).
Proof.
  intros Hc. revert l2. induction l1 as [|x l1 IH]; intros l2 Hpos.
  - reflexivity.
  - destruct l2 as [|y l2]; [reflexivity|].
    inversion Hpos as [|? ? Hy Hl2]; subst.
    cbn [map zip_with]. f_equal; [|apply IH; exact Hl2].
    assert (Hcy : 0 < c * y) by (apply Rmult_lt_0_compat; assumption).
    unfold fdiv_ieee. rewrite (Reqb_false (c * y) 0), (Reqb_false y 0) by lra.
    f_equal. field. split; lra.
Qed.

Lemma series_div_scale (c : R) (closes : list R) :
  0 < c -> Forall (Rlt 0) closes ->
  series_div (map Fin (map (Rmult c) closes)) (shift1 (map Fin (map (Rmult c) closes)))
  = series_div (map Fin closes) (shift1 (map Fin closes)).
Proof.
  intros Hc Hpos. destruct closes as [|c0 rest]; [reflexivity|].
  unfold series_div, shift1. cbn [map].
  change (Fin (c * c0) :: map Fin (map (Rmult c) rest))
    with (map Fin (map (Rmult c) (c0 :: rest))).
  change (Fin c0 :: map Fin rest) with (map Fin (c0 :: rest)).
  rewrite !removelast_map.
  cbn [map zip_with fdiv_ieee]. f_equal.
  apply zip_div_scale; [exact Hc|].
  apply Forall_removelast. exact Hpos.
Qed.

(** X8. Rescaling every close by the same positive factor (a change of
    currency or a split adjustment) leaves both statistics unchanged; only
    the ratios of consecutive closes matter. *)
Theorem realised_statistics_scale_invariant (c : R) (closes : list R) :
  0 < c -> Forall (Rlt 0) closes ->
  realised_statistics (map Fin (map (Rmult c) closes))
  = realised_statistics (map Fin closes).
Proof.
  intros Hc Hpos. unfold realised_statistics.
  rewrite (series_div_scale c closes Hc Hpos). reflexivity.
Qed.

Lemma realised_statistics_scale_invariant_witness :
  realised_statistics (map Fin (map (Rmult 2) [100; 110; 99]))
  = realised_statistics (map Fin [100; 110; 99]).
Proof.
  apply (realised_statistics_scale_invariant 2 [100; 110; 99]).
  - lra.
  - repeat constructor; lra.
Defined.






(** X10. For n >= 3 positive closes whose quotients stay in the binary64
    range both statistics are finite numbers and the volatility is not
    negative. *)
Theorem volatility_nonnegative (closes : list R) :
  (3 <= length closes)%nat -> Forall (Rlt 0) closes -> statistics_in_range closes ->
  exists mu sigma : R,
    realised_statistics (map Fin closes) = Ok (Fin mu, Fin sigma) /\ 0 <= sigma.
Proof.
  intros Hlen Hpos Hrange.
  assert (Hr : (2 <= length (log_returns closes))%nat)
    by (rewrite log_returns_length; lia).
  exists (sample_mean (log_returns closes) * 252.0),
         (bessel_std (log_returns closes) * sqrt 252.0).
  split.
  - rewrite (realised_statistics_positive closes) by (try assumption; lia).
    rewrite (bessel_std_float_defined _ Hr (proj2 (proj2 Hrange))). reflexivity.
  - apply Rmult_le_pos; [unfold bessel_std|]; apply sqrt_pos.
Qed.

Lemma volatility_nonnegative_witness :
  exists mu sigma : R,
    realised_statistics (map Fin [100; 110; 121]) = Ok (Fin mu, Fin sigma) /\ 0 <= sigma.
Proof.
  apply (volatility_nonnegative [100; 110; 121]).
  - cbn. lia.
  - repeat constructor; lra.
  - exact statistics_in_range_three_points.
Defined.

Lemma log_returns_from_constant (c : R) (m : nat) :
  0 < c -> log_returns_from c (repeat c m) = repeat 0 m.
Proof.
  intros Hc. induction m as [|m IH]; [reflexivity|].
  cbn [repeat log_returns_from]. rewrite IH. f_equal.
  unfold Rdiv. rewrite Rinv_r by lra. apply ln_1.
Qed.

Lemma Rsum_repeat_0 (m : nat) : Rsum (repeat 0 m) = 0.
Proof.
  induction m as [|m IH]; [reflexivity|].
  change (0 + Rsum (repeat 0 m) = 0). rewrite IH. lra.
Qed.

Lemma Rsum_sqr_repeat_0 (m : nat) :
  Rsum (map (fun r => Rsqr (r - 0)) (repeat 0 m)) = 0.
Proof.
  induction m as [|m IH]; [reflexivity|].
  change (Rsqr (0 - 0) + Rsum (map (fun r => Rsqr (r - 0)) (repeat 0 m)) = 0).
  rewrite IH. unfold Rsqr. ring.
Qed.

Lemma ratios_from_constant (c : R) (m : nat) :
  0 < c -> ratios_from c (repeat c m) = repeat 1 m.
Proof.
  intros Hc. induction m as [|m IH]; [reflexivity|].
  cbn [repeat ratios_from]. rewrite IH. f_equal.
  unfold Rdiv. apply Rinv_r. lra.
Qed.

(** On a flat history every quotient the estimator forms is 1 or 0. *)
Lemma statistics_in_range_flat (c : R) (m : nat) :
  0 < c -> statistics_in_range (repeat c (S m)).
Proof.
  intros Hc. unfold statistics_in_range.
  cbn [repeat consecutive_ratios log_returns].
  rewrite (ratios_from_constant c m Hc), (log_returns_from_constant c m Hc).
  assert (Hmean : sample_mean (repeat 0 m) = 0).
  { unfold sample_mean. rewrite Rsum_repeat_0. unfold Rdiv. ring. }
  split; [|split].
  - apply Forall_forall. intros x Hx. apply repeat_spec in Hx. subst.
    apply representable_moderate_pos. lra.
  - apply representable_zero. exact Hmean.
  - apply representable_zero. unfold bessel_variance.
    rewrite Hmean, Rsum_sqr_repeat_0. unfold Rdiv. ring.
Qed.

(** X11. A flat history (the same positive close n >= 3 times) has zero
    drift and zero volatility, and with that volatility the oracle takes its
    degenerate path and returns the intrinsic value. *)
Theorem flat_history_degenerates (c K : R) (n : nat) (rate dividend maturity : float) :
  0 < c -> (3 <= n)%nat ->
  realised_statistics (map Fin (repeat c n)) = Ok (Fin 0, Fin 0) /\
  black_scholes_price (Fin c) (Fin K) rate dividend (Fin 0) maturity true
    = Ok (Fin (Rmax 0 (c - K))).
Proof.
  intros Hc Hn. split.
  - assert (Hpos : Forall (Rlt 0) (repeat c n)).
    { apply Forall_forall. intros x Hx. apply repeat_spec in Hx. subst. exact Hc. }
    destruct n as [|m]; [lia|].
    pose proof (statistics_in_range_flat c m Hc) as Hrange.
    rewrite (realised_statistics_positive (repeat c (S m)))
      by (try exact Hpos; try exact Hrange; rewrite repeat_length; lia).
    destruct Hrange as (_ & _ & Hrv). revert Hrv.
    cbn [repeat log_returns].
    rewrite (log_returns_from_constant c m Hc). intros Hrv.
    assert (Hm : (2 <= length (repeat 0%R m))%nat) by (rewrite repeat_length; lia).
    rewrite (bessel_std_float_defined _ Hm Hrv).
    assert (Hmean : sample_mean (repeat 0 m) = 0).
    { unfold sample_mean. rewrite Rsum_repeat_0. unfold Rdiv. ring. }
    assert (Hstd : bessel_std (repeat 0 m) = 0).
    { unfold bessel_std. rewrite Hmean, Rsum_sqr_repeat_0.
      unfold Rdiv. rewrite Rmult_0_l. apply sqrt_0. }
    rewrite Hmean, Hstd. cbn [fmul]. rewrite !Rmult_0_l. reflexivity.
  - unfold black_scholes_price.
    assert (Hv : fle (Fin 0) (Fin 0) = true) by (apply Rleb_true; lra).
    rewrite Hv, orb_true_r. cbn [fsub fneg fadd]. rewrite py_max_Fin.
    reflexivity.
Qed.

Lemma flat_history_degenerates_witness :
  realised_statistics (map Fin (repeat 100 4)) = Ok (Fin 0, Fin 0) /\
  black_scholes_price (Fin 100) (Fin 95) (Fin 0.02) (Fin 0.01) (Fin 0) (Fin 1) true
    = Ok (Fin (Rmax 0 (100 - 95))).
Proof.
  apply (flat_history_degenerates 100 95 4 (Fin 0.02) (Fin 0.01) (Fin 1)).
  - lra.
  - lia.
Defined.

(* ================================================================== *)
(** * Further properties of the comparator *)
(* ================================================================== *)

Lemma np_quantile_higher_Fin (sample : list R) (p : R) :
  sample <> [] -> (Z.of_nat (length sample) <= 2 ^ 53)%Z -> 0 <= p <= 1 ->
  np_quantile_higher (map Fin sample) (Fin p)
  = Ok (Fin (nth (Z.to_nat (virtual_index_higher (length sample) p)) (Rsort sample) 0)).
Proof.
  intros Hne Hbig Hp. unfold np_quantile_higher.
  rewrite (Rleb_true 0 p), (Rleb_true p 1) by lra. cbn [andb].
  assert (Hnan : existsb isnan (map Fin sample) = false).
  { clear. induction sample; [reflexivity | exact IHsample]. }
  rewrite Hnan, np_sort_Fin, length_map. f_equal.
  rewrite (nth_indep _ NaN (Fin 0)); [apply (map_nth Fin)|].
  rewrite length_map, (Permutation_length (Rsort_perm sample)).
  assert (Hlen : (0 < length sample)%nat)
    by (destruct sample; [contradiction | cbn; lia]).
  pose proof (virtual_index_range (length sample) p Hlen Hbig Hp). lia.
Qed.

Lemma compare_var_Fin (sample : list R) (p : R) (simulated : float) :
  sample <> [] -> (Z.of_nat (length sample) <= 2 ^ 53)%Z -> 0 <= p <= 1 ->
  exists rel : float,
    compare_var (map Fin sample) (Fin p) simulated
    = Ok (Fin (nth (Z.to_nat (virtual_index_higher (length sample) p)) (Rsort sample) 0),
          rel).
Proof.
  intros Hne Hbig Hp. apply compare_var_of_quantile.
  - intro E. apply Hne. destruct sample; [reflexivity | discriminate].
  - apply np_quantile_higher_Fin; assumption.
Qed.

(** The index does not decrease when the percentile increases: rounding,
    multiplication by n - 1 and the ceiling are all monotone. *)
Lemma virtual_index_monotone (n : nat) (p p' : R) :
  0 <= p -> p <= p' ->
  (virtual_index_higher n p <= virtual_index_higher n p')%Z.
Proof.
  intros Hp Hpp. unfold virtual_index_higher. apply Zceil_le.
  pose proof (Binary64Facts.round64_nonneg p Hp) as Hr.
  pose proof (Binary64Facts.round64_le p p' Hp Hpp) as Hrr.
  pose proof (pos_INR (n - 1)) as Hn.
  apply Binary64Facts.round64_le.
  - apply Rmult_le_pos; assumption.
  - apply Rmult_le_compat_l; assumption.
Qed.

(** X12. On a finite non-empty sample of at most 2^53 values the empirical
    VaR does not decrease when the percentile increases. *)
Theorem empirical_var_monotone (sample : list R) (p p' : R) (simulated : float) :
  sample <> [] -> (Z.of_nat (length sample) <= 2 ^ 53)%Z ->
  0 <= p -> p <= p' -> p' <= 1 ->
  exists (y y' : R) (rel rel' : float),
    compare_var (map Fin sample) (Fin p) simulated = Ok (Fin y, rel) /\
    compare_var (map Fin sample) (Fin p') simulated = Ok (Fin y', rel') /\
    y <= y'.
Proof.
  intros Hne Hbig Hp0 Hpp Hp1.
  assert (Hp : 0 <= p <= 1) by lra. assert (Hp' : 0 <= p' <= 1) by lra.
  destruct (compare_var_Fin sample p simulated Hne Hbig Hp) as [rel Hc].
  destruct (compare_var_Fin sample p' simulated Hne Hbig Hp') as [rel' Hc'].
  eexists. eexists. exists rel, rel'. split; [exact Hc|]. split; [exact Hc'|].
  assert (Hlen : (0 < length sample)%nat)
    by (destruct sample; [contradiction | cbn; lia]).
  pose proof (virtual_index_range (length sample) p Hlen Hbig Hp) as Hi.
  pose proof (virtual_index_range (length sample) p' Hlen Hbig Hp') as Hi'.
  pose proof (virtual_index_monotone (length sample) p p' Hp0 Hpp) as Hmono.
  apply sorted_nth_le; [apply Rsort_sorted | lia |].
  rewrite (Permutation_length (Rsort_perm sample)). lia.
Qed.

Lemma empirical_var_monotone_witness :
  exists (y y' : R) (rel rel' : float),
    compare_var (map Fin [3; 1; 2]) (Fin 0.25) (Fin 1) = Ok (Fin y, rel) /\
    compare_var (map Fin [3; 1; 2]) (Fin 0.75) (Fin 1) = Ok (Fin y', rel') /\
    y <= y'.
Proof.
  apply (empirical_var_monotone [3; 1; 2] 0.25 0.75 (Fin 1)).
  - discriminate.
  - cbn [length]. change (2 ^ 53)%Z with 9007199254740992%Z. lia.
  - lra.
  - lra.
  - lra.
Defined.

(** X13. At percentile 1 the empirical VaR of a finite non-empty sample of
    at most 2^53 values is its largest loss, at percentile 0 its smallest. *)
Theorem empirical_var_extremes (sample : list R) (simulated : float) :
  sample <> [] -> (Z.of_nat (length sample) <= 2 ^ 53)%Z ->
  exists (lo hi : R) (rel_lo rel_hi : float),
    compare_var (map Fin sample) (Fin 0) simulated = Ok (Fin lo, rel_lo) /\
    compare_var (map Fin sample) (Fin 1) simulated = Ok (Fin hi, rel_hi) /\
    In lo sample /\ In hi sample /\
    forall z, In z sample -> lo <= z <= hi.
Proof.
  intros Hne Hbig.
  assert (H0 : 0 <= 0 <= 1) by lra. assert (H1 : 0 <= 1 <= 1) by lra.
  destruct (compare_var_Fin sample 0 simulated Hne Hbig H0) as [rel0 Hc0].
  destruct (compare_var_Fin sample 1 simulated Hne Hbig H1) as [rel1 Hc1].
  assert (Hlen : (0 < length sample)%nat)
    by (destruct sample; [contradiction | cbn; lia]).
  assert (Hslen : length (Rsort sample) = length sample)
    by apply (Permutation_length (Rsort_perm sample)).
  assert (Hi0 : Z.to_nat (virtual_index_higher (length sample) 0) = 0%nat).
  { unfold virtual_index_higher.
    rewrite Binary64Facts.round64_0, Rmult_0_r, Binary64Facts.round64_0.
    replace (Zceil 0) with 0%Z; [reflexivity|].
    symmetry. apply Zceil_eq. lra. }
  assert (Hi1 : Z.to_nat (virtual_index_higher (length sample) 1)
                = (length sample - 1)%nat).
  { unfold virtual_index_higher.
    rewrite Binary64Facts.round64_1, Rmult_1_r, INR_IZR_INZ.
    rewrite Binary64Facts.round64_IZR by lia.
    replace (Zceil (IZR (Z.of_nat (length sample - 1))))
      with (Z.of_nat (length sample - 1)); [apply Nat2Z.id|].
    symmetry. apply Zceil_eq. lra. }
  rewrite Hi0 in Hc0. rewrite Hi1 in Hc1.
  eexists. eexists. exists rel0, rel1.
  split; [exact Hc0|]. split; [exact Hc1|].
  split; [|split].
  - apply (Permutation_in _ (Rsort_perm sample)). apply nth_In. lia.
  - apply (Permutation_in _ (Rsort_perm sample)). apply nth_In. lia.
  - intros z Hz.
    apply (Permutation_in _ (Permutation_sym (Rsort_perm sample))) in Hz.
    destruct (In_nth _ z 0 Hz) as [j [Hj <-]].
    split; apply sorted_nth_le; try apply Rsort_sorted; lia.
Qed.

Lemma empirical_var_extremes_witness :
  exists (lo hi : R) (rel_lo rel_hi : float),
    compare_var (map Fin [3; 1; 2]) (Fin 0) (Fin 1) = Ok (Fin lo, rel_lo) /\
    compare_var (map Fin [3; 1; 2]) (Fin 1) (Fin 1) = Ok (Fin hi, rel_hi) /\
    In lo [3; 1; 2] /\ In hi [3; 1; 2] /\
    forall z, In z [3; 1; 2] -> lo <= z <= hi.
Proof.
  apply (empirical_var_extremes [3; 1; 2] (Fin 1)).
  - discriminate.
  - cbn [length]. change (2 ^ 53)%Z with 9007199254740992%Z. lia.
Defined.

(** X14. A NaN anywhere in a loss sample makes both the empirical VaR and
    the relative gap NaN, for every valid percentile and simulated VaR. *)
Theorem nan_loss_gives_nan_var (losses : list float) (p : R) (simulated : float) :
  In NaN losses -> 0 <= p <= 1 ->
  compare_var losses (Fin p) simulated = Ok (NaN, NaN).
Proof.
  intros Hin Hp. unfold compare_var.
  destruct losses as [|x l]; [contradiction|]. cbn [length Nat.eqb].
  unfold np_quantile_higher.
  rewrite (Rleb_true 0 p), (Rleb_true p 1) by lra. cbn [andb].
  assert (Hnan : existsb isnan (x :: l) = true).
  { apply existsb_exists. exists NaN. split; [exact Hin | reflexivity]. }
  rewrite Hnan. cbn [rbind fne feq negb]. unfold py_truediv. cbn [feq rbind].
  destruct simulated; reflexivity.
Qed.

Lemma nan_loss_gives_nan_var_witness :
  compare_var [Fin 1; NaN; Fin 2] (Fin 0.5) (Fin 7) = Ok (NaN, NaN).
Proof.
  apply (nan_loss_gives_nan_var [Fin 1; NaN; Fin 2] 0.5 (Fin 7)).
  - right. left. reflexivity.
  - lra.
Defined.

Lemma quantile_is_valid_Fin (q : float) :
  quantile_is_valid q = true <-> exists p, q = Fin p /\ 0 <= p <= 1.
Proof.
  unfold quantile_is_valid. split.
  - destruct q as [p|[|]|]; cbn; try discriminate.
    intros H. apply andb_true_iff in H. destruct H as [H0 H1].
    apply Rleb_spec in H0. apply Rleb_spec in H1. exists p. split; [reflexivity | lra].
  - intros [p [-> [H0 H1]]]. cbn. rewrite (Rleb_true 0 p H0), (Rleb_true p 1 H1).
    reflexivity.
Qed.

Lemma np_quantile_higher_invalid (arr : list float) (q : float) :
  quantile_is_valid q = false -> np_quantile_higher arr q = Raise ValueError.
Proof.
  unfold quantile_is_valid, np_quantile_higher.
  destruct q as [p|[|]|]; cbn; try reflexivity.
  intros ->. reflexivity.
Qed.

Lemma np_quantile_higher_valid (arr : list float) (q : float) :
  quantile_is_valid q = true -> exists v, np_quantile_higher arr q = Ok v.
Proof.
  intros H. apply quantile_is_valid_Fin in H. destruct H as [p [-> [H0 H1]]].
  unfold np_quantile_higher. rewrite (Rleb_true 0 p H0), (Rleb_true p 1 H1).
  cbn [andb]. destruct (existsb isnan arr); eexists; reflexivity.
Qed.

(** X15. [compare_var] fails exactly when the sample is not empty and the
    percentile lies outside [0, 1] (NaN included), and then with ValueError;
    in every other case it returns a pair. *)
Theorem compare_var_failure
    (losses : list float) (percentile simulated : float) (e : exn) :
  compare_var losses percentile simulated = Raise e <->
  (losses <> [] /\ quantile_is_valid percentile = false /\ e = ValueError).
Proof.
  unfold compare_var. split.
  - destruct losses as [|x l]; [discriminate|]. cbn [length Nat.eqb].
    destruct (quantile_is_valid percentile) eqn:Hv.
    + destruct (np_quantile_higher_valid (x :: l) percentile Hv) as [v ->].
      cbn [rbind]. unfold fne, py_truediv.
      destruct (feq v (Fin 0)); cbn [negb rbind]; discriminate.
    + rewrite (np_quantile_higher_invalid _ _ Hv). cbn [rbind].
      intros [= <-]. split; [discriminate|]. split; reflexivity.
  - intros [Hne [Hv ->]]. destruct losses as [|x l]; [contradiction|].
    cbn [length Nat.eqb]. rewrite (np_quantile_higher_invalid _ _ Hv). reflexivity.
Qed.

(** X16. Whenever [compare_var] returns a finite empirical VaR y and a
    finite relative gap rel for a finite simulated VaR s, then y is not
    zero, and unless the gap is reported as zero (which an underflowing
    quotient also gives) the simulated value is recovered as
    s = y * (1 + rel). *)
Theorem relative_gap_recovers_simulated
    (losses : list float) (percentile : float) (s y rel : R) :
  compare_var losses percentile (Fin s) = Ok (Fin y, Fin rel) ->
  y <> 0 /\ (rel <> 0 -> s = y * (1 + rel)).
Proof.
  unfold compare_var. destruct (length losses =? 0)%nat; [discriminate|].
  destruct (np_quantile_higher losses percentile) as [v|e]; [|discriminate].
  cbn [rbind]. unfold fne, feq.
  destruct v as [x|neg|]; cbn [negb]; try (unfold py_truediv; cbn; discriminate).
  unfold Reqb. destruct (Req_dec_T x 0) as [->|Hx]; cbn [negb rbind].
  - discriminate.
  - unfold py_truediv, feq. rewrite (Reqb_false x 0 Hx). cbn [rbind fsub fneg fadd].
    unfold fdiv_ieee. rewrite (Reqb_false x 0 Hx). unfold fnorm.
    destruct (Rleb DBL_OVERFLOW (Rabs ((s + - x) / x))); [discriminate|].
    destruct (Rleb (Rabs ((s + - x) / x)) DBL_TINY).
    + intros [= -> <-]. split; [exact Hx|]. intros H. contradiction H. reflexivity.
    + intros [= -> <-]. split; [exact Hx|]. intros _. field. exact Hx.
Qed.

Lemma relative_gap_recovers_simulated_witness :
  100 <> 0 /\ ((90 + - 100) / 100 <> 0 -> 90 = 100 * (1 + (90 + - 100) / 100)).
Proof.
  apply (relative_gap_recovers_simulated
           (map Fin [-50; -20; 0; 30; 100]) (Fin 0.8) 90 100 ((90 + - 100) / 100)).
  exact compare_var_sample.
Defined.

Lemma np_leb_total (a b : float) : np_le a b \/ np_le b a.
Proof.
  unfold np_le.
  destruct a as [x|[|]|], b as [y|[|]|]; cbn; auto.
  unfold Rleb. destruct (Rle_dec x y), (Rle_dec y x); auto. lra.
Qed.

Lemma np_leb_trans (a b c : float) : np_le a b -> np_le b c -> np_le a c.
Proof.
  unfold np_le.
  destruct a as [x|[|]|], b as [y|[|]|], c as [z|[|]|]; cbn; auto;
    try discriminate.
  intros H1 H2. apply Rleb_spec in H1. apply Rleb_spec in H2.
  apply Rleb_true. lra.
Qed.

Lemma np_leb_antisym (a b : float) : np_le a b -> np_le b a -> a = b.
Proof.
  unfold np_le.
  destruct a as [x|[|]|], b as [y|[|]|]; cbn; auto; try discriminate.
  intros H1 H2. apply Rleb_spec in H1. apply Rleb_spec in H2.
  f_equal. lra.
Qed.

Lemma np_insert_sorted (x : float) (l : list float) :
  StronglySorted np_le l -> StronglySorted np_le (np_insert x l).
Proof.
  induction l as [|y l IH]; intros Hs; cbn.
  - constructor; constructor.
  - inversion Hs as [|? ? Hl Hall]; subst.
    destruct (np_leb x y) eqn:Hxy.
    + constructor; [exact Hs|]. constructor; [exact Hxy|].
      eapply Forall_impl; [|exact Hall]. intros z Hz.
      apply (np_leb_trans x y z); [exact Hxy | exact Hz].
    + constructor; [apply IH; exact Hl|].
      rewrite Forall_forall. intros z Hz.
      apply (Permutation_in _ (np_insert_perm x l)) in Hz.
      destruct Hz as [<-|Hz].
      * destruct (np_leb_total x y) as [H|H]; [|exact H].
        unfold np_le in H. rewrite H in Hxy. discriminate.
      * rewrite Forall_forall in Hall. apply Hall. exact Hz.
Qed.

Lemma np_sort_sorted (l : list float) : StronglySorted np_le (np_sort l).
Proof.
  induction l as [|x l IH]; cbn; [constructor|].
  apply np_insert_sorted. exact IH.
Qed.

Lemma sorted_permutation_unique (l1 l2 : list float) :
  StronglySorted np_le l1 -> StronglySorted np_le l2 -> Permutation l1 l2 ->
  l1 = l2.
Proof.
  revert l2. induction l1 as [|x l1 IH]; intros l2 H1 H2 Hp.
  - apply Permutation_nil in Hp. symmetry. exact Hp.
  - destruct l2 as [|y l2].
    { apply Permutation_sym, Permutation_nil in Hp. discriminate. }
    inversion H1 as [|? ? Hs1 Hall1]; subst.
    inversion H2 as [|? ? Hs2 Hall2]; subst.
    rewrite Forall_forall in Hall1, Hall2.
    assert (Hxy : x = y).
    { assert (Hin_y : In y (x :: l1))
        by (apply (Permutation_in _ (Permutation_sym Hp)); left; reflexivity).
      assert (Hin_x : In x (y :: l2))
        by (apply (Permutation_in _ Hp); left; reflexivity).
      destruct Hin_y as [E|Hy]; [exact E|].
      destruct Hin_x as [E|Hx]; [symmetry; exact E|].
      apply np_leb_antisym; [apply Hall1; exact Hy | apply Hall2; exact Hx]. }
    subst y. f_equal. apply IH; [exact Hs1 | exact Hs2 |].
    apply (Permutation_cons_inv Hp).
Qed.

Lemma existsb_permutation {A : Type} (f : A -> bool) (l l' : list A) :
  Permutation l l' -> existsb f l = existsb f l'.
Proof.
  intros Hp.
  destruct (existsb f l) eqn:E; symmetry.
  - apply existsb_exists in E. destruct E as [x [Hin Hx]].
    apply existsb_exists. exists x. split; [|exact Hx].
    apply (Permutation_in _ Hp). exact Hin.
  - destruct (existsb f l') eqn:E'; [|reflexivity].
    apply existsb_exists in E'. destruct E' as [x [Hin Hx]].
    assert (existsb f l = true).
    { apply existsb_exists. exists x. split; [|exact Hx].
      apply (Permutation_in _ (Permutation_sym Hp)). exact Hin. }
    congruence.
Qed.

(** X17. The result of [compare_var] does not depend on the order of the
    losses: two samples that are permutations of each other give the same
    empirical VaR and relative gap (or the same error). *)
Theorem compare_var_permutation_invariant
    (losses losses' : list float) (percentile simulated : float) :
  Permutation losses losses' ->
  compare_var losses percentile simulated = compare_var losses' percentile simulated.
Proof.
  intros Hp. unfold compare_var, np_quantile_higher.
  rewrite (Permutation_length Hp), (existsb_permutation isnan _ _ Hp).
  assert (Hsort : np_sort losses = np_sort losses').
  { apply sorted_permutation_unique; try apply np_sort_sorted.
    apply perm_trans with losses; [apply np_sort_perm|].
    apply perm_trans with losses'; [exact Hp|].
    apply Permutation_sym, np_sort_perm. }
  rewrite Hsort. reflexivity.
Qed.

Lemma compare_var_permutation_invariant_witness :
  compare_var [Fin 3; Fin 1; Fin 2] (Fin 0.5) (Fin 7)
  = compare_var [Fin 1; Fin 3; Fin 2] (Fin 0.5) (Fin 7).
Proof.
  apply (compare_var_permutation_invariant [Fin 3; Fin 1; Fin 2] [Fin 1; Fin 3; Fin 2]).
  apply perm_swap.
Defined.

(* ================================================================== *)
(** * Further properties of the adapter, of the sweep and of [main] *)
(* ================================================================== *)

Lemma dict_set_keys (d : payload) (k : string) (v : value) :
  dict_get d k <> None -> map fst (dict_set d k v) = map fst d.
Proof.
  induction d as [|[k0 v0] d IH]; cbn; intros H; [contradiction|].
  destruct (String.eqb k0 k) eqn:E; cbn; [reflexivity|].
  f_equal. apply IH. exact H.
Qed.

Lemma dict_set_defined (d : payload) (k k' : string) (v : value) :
  dict_get d k' <> None -> dict_get (dict_set d k v) k' <> None.
Proof.
  intros H. destruct (String.eqb k k') eqn:E.
  - apply String.eqb_eq in E. subst. rewrite dict_get_set_same. discriminate.
  - rewrite dict_get_set_other; [exact H|].
    intro E'. subst. rewrite String.eqb_refl in E. discriminate.
Qed.


Section EngineExtras.

Variable World : Type.
Variable path_exists : string -> World -> bool.
Variable subprocess_run : list string -> World -> result CompletedProcess * World.
Variable json_loads : string -> result json.
Variable float_repr : float -> string.
Variable float_of_str : string -> option float.

Local Abbreviation run_risk_sim' :=
  (run_risk_sim World path_exists subprocess_run json_loads float_repr).
Local Abbreviation sweep_loop' :=
  (sweep_loop World path_exists subprocess_run json_loads float_repr float_of_str).
Local Abbreviation convergence_sweep' :=
  (convergence_sweep World path_exists subprocess_run json_loads float_repr
     float_of_str).
Local Abbreviation main' :=
  (main World path_exists subprocess_run json_loads float_repr float_of_str).
Local Abbreviation build_cli' := (build_cli float_repr).

(** X18. When the engine binary does not exist the adapter raises
    SystemExit naming the path, starts no process and leaves the state as it
    was. *)
Theorem missing_binary_exits (binary command : string) (args : payload)
    (st : state World) :
  path_exists binary (world st) = false ->
  run_risk_sim' binary command args st
  = (Raise (SystemExit ("risk_sim binary not found at " ++ binary
                        ++ ". Build the project first.")), st).
Proof.
  intros Hex. rewrite run_risk_sim_cases, Hex. reflexivity.
Qed.

(** X19. When the binary exists, one call of the adapter starts exactly one
    process, whatever the outcome (response, non-zero exit, unreadable
    output, failure to start): the command line
    [binary command --k=v ... --format=json] is appended to the trace. *)
Theorem one_process_per_call (binary command : string) (args : payload)
    (st : state World) :
  path_exists binary (world st) = true ->
  invocations (snd (run_risk_sim' binary command args st))
  = (invocations st
     ++ [ [binary; command]
          ++ map (fun kv => "--" ++ fst kv ++ "=" ++ str_of_value float_repr (snd kv))%string
                 args
          ++ ["--format=json"%string] ])%list.
Proof.
  intros Hex. rewrite run_risk_sim_cases, Hex. cbn [negb]. cbv zeta.
  destruct (subprocess_run (build_cli' binary command args) (world st))
    as [[cp|e] w]; [|reflexivity].
  destruct (negb (returncode cp =? 0)%Z); reflexivity.
Qed.

(** X20. On exit status 0 the adapter returns what the JSON parser makes of
    the captured standard output, its parse error included; the standard
    error stream plays no part. *)
Theorem zero_exit_returns_parsed_stdout (binary command : string) (args : payload)
    (st : state World) (cp : CompletedProcess) (w : World) :
  path_exists binary (world st) = true ->
  subprocess_run (build_cli' binary command args) (world st) = (Ok cp, w) ->
  returncode cp = 0%Z ->
  fst (run_risk_sim' binary command args st) = json_loads (stdout cp).
Proof.
  intros Hex Hrun Hrc. rewrite run_risk_sim_cases, Hex. cbn [negb]. cbv zeta.
  rewrite Hrun, Hrc. reflexivity.
Qed.

(** X21. A response whose result object has no "standardError" field is
    accepted, and the standard error is taken as 0.0. *)
Theorem missing_standard_error_defaults_to_zero
    (response : json) (fields : list (string * json)) :
  json_getitem response "result" = Ok (JDict fields) ->
  fields_get fields "standardError" = None ->
  response_std_err float_of_str response = Ok (Fin 0.0).
Proof.
  intros Hres Hmiss. unfold response_std_err. rewrite Hres. cbn [rbind json_get].
  rewrite Hmiss. reflexivity.
Qed.

(** X22. A response whose result object has no "price" field is rejected
    with KeyError "price". *)
Theorem missing_price_raises_key_error
    (response : json) (fields : list (string * json)) :
  json_getitem response "result" = Ok (JDict fields) ->
  fields_get fields "price" = None ->
  response_price float_of_str response = Raise (KeyError "price").
Proof.
  intros Hres Hmiss. unfold response_price. rewrite Hres. cbn [rbind json_getitem].
  rewrite Hmiss. reflexivity.
Qed.

(** X23. The request of a sweep iteration differs from the base request in
    "paths" and "seed" only: every other field is the same, and when the base
    request holds both keys the keys keep their order, so the flags appear on
    the command line in the order of the base request. *)
Theorem sweep_payload_changes_paths_and_seed_only
    (args : Namespace) (base : payload) (i : Z) :
  dict_get base "paths" <> None -> dict_get base "seed" <> None ->
  (forall k : string, k <> "paths"%string -> k <> "seed"%string ->
     dict_get (sweep_payload args base i) k = dict_get base k) /\
  map fst (sweep_payload args base i) = map fst base.
Proof.
  intros Hp Hs. unfold sweep_payload. cbv zeta. split.
  - intros k Hk1 Hk2.
    rewrite dict_get_set_other by (intro E; apply Hk2; symmetry; exact E).
    rewrite dict_get_set_other by (intro E; apply Hk1; symmetry; exact E).
    reflexivity.
  - rewrite dict_set_keys; [apply dict_set_keys; exact Hp|].
    apply dict_set_defined. exact Hs.
Qed.

(** X24. A sweep never starts more than [stress_runs] processes, and none
    at all when [stress_runs] is zero or negative. *)
Theorem sweep_invocations_bounded (args : Namespace) (base : payload)
    (st : state World) :
  exists started : list (list string),
    invocations (snd (convergence_sweep' args base st))
      = (invocations st ++ started)%list /\
    (length started <= Z.to_nat (args_stress_runs args))%nat.
Proof.
  unfold convergence_sweep.
  destruct (Z.ltb_spec 0 (args_stress_runs args)) as [Hpos|Hle].
  - destruct (sweep_loop' args base (py_range (args_stress_runs args)) st)
      as [res st'] eqn:Erun.
    destruct (sweep_loop_invocations World path_exists subprocess_run json_loads
                float_repr float_of_str args base _ st st' res Erun)
      as [k [Hk [Htr _]]].
    rewrite py_range_length in Hk.
    eexists. split; [exact Htr|].
    rewrite length_map, length_firstn, py_range_length. lia.
  - exists []. unfold ret. cbn [snd]. rewrite app_nil_r. split; [reflexivity|].
    cbn. lia.
Qed.

(** X25. Against an engine that is present, always exits with status 0 and
    always prints a document holding a price, a sweep of N > 0 iterations
    returns N points whose sample counts are P, 2P, ..., NP in that order, and
    starts exactly N processes. *)
Theorem sweep_completes (args : Namespace) (base : payload) (st : state World) :
  (0 < args_stress_runs args)%Z ->
  (forall w, path_exists (args_binary args) w = true) ->
  (forall cli w, exists cp w',
      subprocess_run cli w = (Ok cp, w') /\ returncode cp = 0%Z /\
      exists j p e, json_loads (stdout cp) = Ok j /\
                    response_price float_of_str j = Ok p /\
                    response_std_err float_of_str j = Ok e) ->
  exists (points : list SweepPoint) (st' : state World),
    convergence_sweep' args base st = (Ok points, st') /\
    map sweep_paths points
      = map (fun i => args_paths args * (i + 1))%Z (py_range (args_stress_runs args)) /\
    length (invocations st')
      = (length (invocations st) + Z.to_nat (args_stress_runs args))%nat.
Proof.
  intros HN Hex Hengine. unfold convergence_sweep.
  destruct (Z.ltb_spec 0 (args_stress_runs args)) as [_|Hle]; [|lia].
  destruct (sweep_loop_completes World path_exists subprocess_run json_loads
              float_repr float_of_str args base
              (py_range (args_stress_runs args)) Hex Hengine st)
    as [points [st' [Hrun [Hlen Hpaths]]]].
  exists points, st'. split; [exact Hrun|]. split; [exact Hpaths|].
  destruct (sweep_loop_invocations World path_exists subprocess_run json_loads
              float_repr float_of_str args base _ st st' _ Hrun)
    as [k [Hk [Htr Hok]]].
  rewrite Htr, length_app, length_map, length_firstn.
  rewrite (Hok (ex_intro _ points eq_refl)), py_range_length. lia.
Qed.

(** X26. A sweep stops at the first failure: when the first engine run
    exits with a non-zero status, the sweep raises the RuntimeError of that
    run and no further process is started. *)
Theorem sweep_aborts_on_first_failure (args : Namespace) (base : payload)
    (st : state World) (cp : CompletedProcess) (w : World) :
  (0 < args_stress_runs args)%Z ->
  path_exists (args_binary args) (world st) = true ->
  subprocess_run (build_cli' (args_binary args) "option" (sweep_payload args base 0))
                 (world st) = (Ok cp, w) ->
  returncode cp <> 0%Z ->
  convergence_sweep' args base st
  = (Raise (RuntimeError ("risk_sim failed (option): "
                          ++ str_or (stderr cp) (stdout cp))),
     {| world := w;
        invocations := (invocations st
                        ++ [build_cli' (args_binary args) "option"
                              (sweep_payload args base 0)])%list |}).
Proof.
  intros HN Hex Hrun Hrc. unfold convergence_sweep.
  destruct (Z.ltb_spec 0 (args_stress_runs args)) as [_|Hle]; [|lia].
  assert (Hrange : exists rest, py_range (args_stress_runs args) = 0%Z :: rest).
  { unfold py_range. destruct (Z.to_nat (args_stress_runs args)) as [|n] eqn:E; [lia|].
    cbn [seq map]. eexists. reflexivity. }
  destruct Hrange as [rest ->]. cbn [sweep_loop]. unfold bind at 1.
  rewrite run_risk_sim_cases, Hex. cbn [negb]. cbv zeta. rewrite Hrun.
  destruct (Z.eqb_spec (returncode cp) 0) as [E|_]; [contradiction|].
  reflexivity.
Qed.


Lemma run_risk_sim_step (binary command : string) (args : payload)
    (st st' : state World) (res : result json) :
  run_risk_sim' binary command args st = (res, st') ->
  (invocations st' = invocations st /\ (forall j, res <> Ok j)) \/
  invocations st' = (invocations st ++ [build_cli' binary command args])%list.
Proof.
  intros H.
  pose proof (run_risk_sim_invocations World path_exists subprocess_run json_loads
                float_repr binary command args st) as Hinv.
  cbv zeta in Hinv. rewrite H in Hinv. exact Hinv.
Qed.

(** A call of the adapter followed by steps that leave the state alone. *)
Lemma run_then_pure {A : Type} (binary command : string) (args : payload)
    (k : json -> M World A) (st st' : state World) (res : result A) :
  (forall j s, snd (k j s) = s) ->
  bind World (run_risk_sim' binary command args) k st = (res, st') ->
  (invocations st' = invocations st /\ (forall x, res <> Ok x)) \/
  invocations st' = (invocations st ++ [build_cli' binary command args])%list.
Proof.
  intros Hk H. unfold bind in H.
  destruct (run_risk_sim' binary command args st) as [[j|e] s1] eqn:Er.
  - pose proof (Hk j s1) as Hs. rewrite H in Hs. cbn [snd] in Hs. subst st'.
    destruct (run_risk_sim_step _ _ _ _ _ _ Er) as [[_ Hno]|Happ].
    + exfalso. apply (Hno j). reflexivity.
    + right. exact Happ.
  - injection H as <- <-.
    destruct (run_risk_sim_step _ _ _ _ _ _ Er) as [[Hsame _]|Happ].
    + left. split; [exact Hsame | discriminate].
    + right. exact Happ.
Qed.

Lemma option_pricing_check_step (args : Namespace) (spot strike sigma : float)
    (st st' : state World) (res : result (float * float * float * float)) :
  option_pricing_check World path_exists subprocess_run json_loads float_repr
    float_of_str args spot strike sigma st = (res, st') ->
  (invocations st' = invocations st /\ (forall x, res <> Ok x)) \/
  invocations st'
  = (invocations st
     ++ [build_cli' (args_binary args) "option"
           (option_payload args spot strike sigma)])%list.
Proof.
  unfold option_pricing_check. apply run_then_pure.
  intros j s. unfold bind, lift, ret.
  destruct (response_price float_of_str j); [|reflexivity].
  destruct (response_std_err float_of_str j); [|reflexivity].
  destruct (black_scholes_price _ _ _ _ _ _ _); [|reflexivity].
  destruct (option_relative_error _ _); reflexivity.
Qed.

Lemma var_check_step (args : Namespace) (close : list float) (spot sigma : float)
    (st st' : state World) (res : result (float * float * float)) :
  var_check World path_exists subprocess_run json_loads float_repr float_of_str
    args close spot sigma st = (res, st') ->
  (invocations st' = invocations st /\ (forall x, res <> Ok x)) \/
  invocations st'
  = (invocations st
     ++ [build_cli' (args_binary args) "var" (var_payload args spot sigma)])%list.
Proof.
  unfold var_check. cbv zeta. apply run_then_pure.
  intros j s. unfold bind, lift, ret.
  destruct (rbind _ _); [|reflexivity].
  destruct (compare_var _ _ _); reflexivity.
Qed.

Lemma realised_statistics_total (close : list float) :
  exists stats, realised_statistics close = Ok stats.
Proof.
  unfold realised_statistics, math_sqrt. rewrite (Rltb_false 252.0 0) by lra.
  eexists. reflexivity.
Qed.

Lemma main_trace (args : Namespace) (close : list float)
    (st st' : state World) (res : result (list SweepPoint)) :
  main' args close st = (res, st') ->
  let expected := main_command_lines float_repr args close in
  exists k : nat,
    (k <= length expected)%nat /\
    invocations st' = (invocations st ++ firstn k expected)%list /\
    ((exists points, res = Ok points) -> k = length expected).
Proof.
  intros Hmain. cbv zeta. unfold main_command_lines, realised_sigma. cbv zeta.
  set (N := args_stress_runs args).
  unfold main in Hmain.
  destruct close as [|c0 rest] eqn:Eclose.
  { injection Hmain as <- <-. exists 0%nat. cbn. rewrite app_nil_r.
    split; [lia|]. split; [reflexivity|]. intros [points Hp]. discriminate. }
  rewrite <- Eclose in *. unfold bind at 1, lift at 1 in Hmain.
  assert (Hlast : last_close close = Ok (last close NaN)) by (rewrite Eclose; reflexivity).
  rewrite Hlast in Hmain.
  destruct (realised_statistics_total close) as [stats Hstats].
  unfold bind at 1, lift at 1 in Hmain. rewrite Hstats in Hmain |- *. cbn [snd].
  fold (main_strike args (last close NaN)) in Hmain.
  set (spot := last close NaN) in *. set (strike := main_strike args spot) in *.
  set (sigma := snd stats) in *.
  set (base := option_payload args spot strike sigma) in *.
  set (cli_sweep := fun i => build_cli' (args_binary args) "option"
                               (sweep_payload args base i)).
  unfold bind at 1 in Hmain.
  destruct (option_pricing_check World path_exists subprocess_run json_loads
              float_repr float_of_str args spot strike sigma st)
    as [[x1|e1] st1] eqn:E1.
  - destruct (option_pricing_check_step _ _ _ _ _ _ _ E1) as [[_ Hno]|H1].
    { exfalso. apply (Hno x1). reflexivity. }
    unfold bind at 1 in Hmain.
    destruct (var_check World path_exists subprocess_run json_loads float_repr
                float_of_str args close spot sigma st1)
      as [[x2|e2] st2] eqn:E2.
    + destruct (var_check_step _ _ _ _ _ _ _ E2) as [[_ Hno]|H2].
      { exfalso. apply (Hno x2). reflexivity. }
      assert (Hsweep : exists k : nat,
                 (k <= Z.to_nat N)%nat /\
                 invocations st'
                 = (invocations st2 ++ firstn k (map cli_sweep (py_range N)))%list /\
                 ((exists points, res = Ok points) -> k = Z.to_nat N)).
      { unfold convergence_sweep in Hmain. fold N in Hmain.
        destruct (Z.ltb_spec 0 N) as [Hpos|Hle].
        - destruct (sweep_loop_invocations World path_exists subprocess_run
                      json_loads float_repr float_of_str args base _ st2 st' res Hmain)
            as [k [Hk [Htr Hok]]].
          rewrite py_range_length in Hk, Hok.
          exists k. split; [exact Hk|]. split; [|exact Hok].
          rewrite Htr, firstn_map. reflexivity.
        - injection Hmain as <- <-. exists 0%nat. cbn [firstn].
          rewrite app_nil_r. split; [lia|]. split; [reflexivity|]. intros _. lia. }
      destruct Hsweep as [k [Hk [Htr Hok]]].
      exists (2 + k)%nat.
      rewrite length_app, length_map, py_range_length. cbn [length].
      split; [lia|]. split.
      * rewrite Htr, H2, H1, <- !app_assoc. reflexivity.
      * intros Hres. rewrite (Hok Hres). lia.
    + injection Hmain as <- <-.
      rewrite length_app. cbn [length].
      destruct (var_check_step _ _ _ _ _ _ _ E2) as [[H2 _]|H2].
      * exists 1%nat. split; [lia|]. split; [rewrite H2, H1; reflexivity|].
        intros [points Hp]. discriminate.
      * exists 2%nat. split; [lia|]. split; [rewrite H2, H1, <- app_assoc; reflexivity|].
        intros [points Hp]. discriminate.
  - injection Hmain as <- <-.
    rewrite length_app. cbn [length].
    destruct (option_pricing_check_step _ _ _ _ _ _ _ E1) as [[H1 _]|H1].
    + exists 0%nat. split; [lia|]. split; [rewrite H1, app_nil_r; reflexivity|].
      intros [points Hp]. discriminate.
    + exists 1%nat. split; [lia|]. split; [exact H1|].
      intros [points Hp]. discriminate.
Qed.

(** X27. [main] talks to the engine in one fixed order: the option request
    (seed 42), then the value-at-risk request (seed 1337), then the sweep
    requests for i = 0, 1, ...  Whatever happens, the processes started are a
    prefix of that sequence, and when [main] returns they are all of it:
    2 + max(stress_runs, 0) processes. *)
Theorem main_invocation_order (args : Namespace) (close : list float)
    (st : state World) :
  let r := main' args close st in
  let expected := main_command_lines float_repr args close in
  exists k : nat,
    (k <= length expected)%nat /\
    invocations (snd r) = (invocations st ++ firstn k expected)%list /\
    ((exists points, fst r = Ok points) -> k = length expected) /\
    length expected = (2 + Z.to_nat (args_stress_runs args))%nat.
Proof.
  cbv zeta.
  destruct (main' args close st) as [res st'] eqn:Hmain. cbn [fst snd].
  destruct (main_trace args close st st' res Hmain) as [k [Hk [Htr Hok]]].
  exists k. split; [exact Hk|]. split; [exact Htr|]. split; [exact Hok|].
  unfold main_command_lines. cbv zeta.
  rewrite length_app, length_map, py_range_length. reflexivity.
Qed.

(** X28. With a non-empty history and no engine binary, [main] stops with
    SystemExit at the option check: no process is started and the state is
    unchanged. *)
Theorem main_missing_binary (args : Namespace) (close : list float)
    (st : state World) :
  close <> [] ->
  path_exists (args_binary args) (world st) = false ->
  main' args close st
  = (Raise (SystemExit ("risk_sim binary not found at " ++ args_binary args
                        ++ ". Build the project first.")), st).
Proof.
  intros Hne Hex. unfold main.
  destruct close as [|c0 rest] eqn:Eclose; [contradiction|]. rewrite <- Eclose.
  assert (Hlast : last_close close = Ok (last close NaN)) by (rewrite Eclose; reflexivity).
  unfold bind at 1, lift at 1. rewrite Hlast.
  destruct (realised_statistics_total close) as [stats Hstats].
  unfold bind at 1, lift at 1. rewrite Hstats.
  unfold bind at 1. unfold option_pricing_check. unfold bind at 1.
  rewrite run_risk_sim_cases, Hex. reflexivity.
Qed.

End EngineExtras.

Lemma realised_statistics_one_point (c : float) :
  realised_statistics [c] = Ok (NaN, NaN).
Proof.
  unfold realised_statistics, math_sqrt. rewrite (Rltb_false 252.0 0) by lra.
  destruct c; reflexivity.
Qed.

Lemma expired_at_the_money_call (S : R) (rate dividend vol : float) :
  black_scholes_price (Fin S) (Fin S) rate dividend vol (Fin 0) true = Ok (Fin 0.0).
Proof.
  unfold black_scholes_price, fle. rewrite (Rleb_true 0 0) by lra. cbn [orb].
  cbn [fsub fneg fadd]. unfold py_max, flt. rewrite Rltb_false by lra.
  reflexivity.
Qed.

Lemma option_relative_error_zero (mc_price : float) :
  option_relative_error mc_price (Fin 0.0) = Ok (fsub mc_price (Fin 0.0), PInf).
Proof.
  unfold option_relative_error, fne, feq. rewrite (Reqb_true 0.0 0) by lra.
  reflexivity.
Qed.

(** A complete run: one close of 100, an expired at-the-money option, an
    engine that always answers.  [main] returns three sweep points after five
    processes, in the order option, var, sweep 0..2. *)
Example main_complete_run :
  exists (points : list SweepPoint) (st' : state unit),
    main unit Fake.path_exists Fake.engine_ok FakeRun.json_loads Fake.float_repr
      Fake.float_of_str FakeRun.args [Fin 100] Fake.init = (Ok points, st') /\
    map sweep_paths points = [1000; 2000; 3000]%Z /\
    map paths_and_seed (invocations st')
    = [ ["--paths=1000"; "--seed=42"];
        ["--paths=1000"; "--seed=1337"];
        ["--paths=1000"; "--seed=100"];
        ["--paths=2000"; "--seed=101"];
        ["--paths=3000"; "--seed=102"] ]%string.
Proof.
  unfold main. unfold bind at 1, lift at 1. cbn [last_close last].
  unfold bind at 1, lift at 1. rewrite realised_statistics_one_point. cbn [snd].
  unfold bind at 1. unfold option_pricing_check.
  unfold bind at 1. rewrite run_risk_sim_cases.
  cbn [Fake.path_exists negb Fake.engine_ok returncode stdout Z.eqb FakeRun.json_loads].
  cbv zeta. cbn [returncode stdout Z.eqb negb].
  unfold bind at 1, lift at 1. cbn [response_price json_getitem fields_get String.eqb
    Ascii.eqb Bool.eqb rbind py_float].
  unfold bind at 1, lift at 1.
  cbn [response_std_err json_getitem json_get fields_get String.eqb
    Ascii.eqb Bool.eqb rbind py_float].
  unfold bind at 1, lift at 1. cbn [FakeRun.args args_strike args_rate args_dividend
    args_maturity args_binary].
  rewrite expired_at_the_money_call.
  unfold bind at 1, lift at 1. rewrite option_relative_error_zero.
  unfold ret at 1.
  eexists. eexists. split; [reflexivity|]. split; reflexivity.
Qed.

Lemma missing_binary_exits_witness :
  run_risk_sim unit FakeRun.missing Fake.engine_ok Fake.json_loads Fake.float_repr
    "build/risk_sim" "option" [] Fake.init
  = (Raise (SystemExit ("risk_sim binary not found at " ++ "build/risk_sim"
                        ++ ". Build the project first.")), Fake.init).
Proof.
  apply (missing_binary_exits unit FakeRun.missing Fake.engine_ok Fake.json_loads
           Fake.float_repr "build/risk_sim" "option" [] Fake.init).
  reflexivity.
Defined.

Lemma one_process_per_call_witness :
  invocations (snd (run_risk_sim unit Fake.path_exists (Fake.engine_exit 1 "" "boom")
                      Fake.json_loads Fake.float_repr "build/risk_sim" "var"
                      [("seed", VInt 1337)] Fake.init))
  = [ ["build/risk_sim"; "var"; "--seed=1337"; "--format=json"] ]%string.
Proof.
  apply (one_process_per_call unit Fake.path_exists (Fake.engine_exit 1 "" "boom")
           Fake.json_loads Fake.float_repr "build/risk_sim" "var"
           [("seed", VInt 1337)] Fake.init).
  reflexivity.
Defined.

Lemma zero_exit_returns_parsed_stdout_witness :
  fst (run_risk_sim unit Fake.path_exists (Fake.engine_exit 0 "{}" "warning")
         Fake.json_loads Fake.float_repr "build/risk_sim" "option" [] Fake.init)
  = Fake.json_loads "{}".
Proof.
  apply (zero_exit_returns_parsed_stdout unit Fake.path_exists
           (Fake.engine_exit 0 "{}" "warning") Fake.json_loads Fake.float_repr
           "build/risk_sim" "option" [] Fake.init
           {| returncode := 0; stdout := "{}"; stderr := "warning" |} tt).
  - reflexivity.
  - reflexivity.
  - reflexivity.
Defined.

Lemma missing_standard_error_defaults_to_zero_witness :
  response_std_err Fake.float_of_str
    (JDict [("result", JDict [("price", JFloat (Fin 10))])])
  = Ok (Fin 0.0).
Proof.
  apply (missing_standard_error_defaults_to_zero Fake.float_of_str
           (JDict [("result", JDict [("price", JFloat (Fin 10))])])
           [("price", JFloat (Fin 10))]).
  - reflexivity.
  - reflexivity.
Defined.

Lemma missing_price_raises_key_error_witness :
  response_price Fake.float_of_str
    (JDict [("result", JDict [("valueAtRisk", JFloat (Fin 5))])])
  = Raise (KeyError "price").
Proof.
  apply (missing_price_raises_key_error Fake.float_of_str
           (JDict [("result", JDict [("valueAtRisk", JFloat (Fin 5))])])
           [("valueAtRisk", JFloat (Fin 5))]).
  - reflexivity.
  - reflexivity.
Defined.

Lemma sweep_payload_changes_paths_and_seed_only_witness :
  let args := Fake.args 1000 3 in
  let base := option_payload args (Fin 100) (Fin 100) (Fin 0.2) in
  (forall k : string, k <> "paths"%string -> k <> "seed"%string ->
     dict_get (sweep_payload args base 2) k = dict_get base k) /\
  map fst (sweep_payload args base 2) = map fst base.
Proof.
  apply (sweep_payload_changes_paths_and_seed_only (Fake.args 1000 3)
           (option_payload (Fake.args 1000 3) (Fin 100) (Fin 100) (Fin 0.2)) 2).
  - discriminate.
  - discriminate.
Defined.

Lemma sweep_completes_witness :
  let args := Fake.args 1000 3 in
  let base := option_payload args (Fin 100) (Fin 100) (Fin 0.2) in
  exists (points : list SweepPoint) (st' : state unit),
    convergence_sweep unit Fake.path_exists Fake.engine_ok Fake.json_loads
      Fake.float_repr Fake.float_of_str args base Fake.init = (Ok points, st') /\
    map sweep_paths points
      = map (fun i => args_paths args * (i + 1))%Z (py_range (args_stress_runs args)) /\
    length (invocations st')
      = (length (invocations Fake.init) + Z.to_nat (args_stress_runs args))%nat.
Proof.
  apply (sweep_completes unit Fake.path_exists Fake.engine_ok Fake.json_loads
           Fake.float_repr Fake.float_of_str (Fake.args 1000 3)
           (option_payload (Fake.args 1000 3) (Fin 100) (Fin 100) (Fin 0.2))
           Fake.init).
  - reflexivity.
  - intros w. reflexivity.
  - intros cli w. eexists. exists w. split; [reflexivity|]. split; [reflexivity|].
    eexists. eexists. eexists. split; [reflexivity|]. split; reflexivity.
Defined.

Lemma sweep_aborts_on_first_failure_witness :
  let args := Fake.args 1000 3 in
  let base := option_payload args (Fin 100) (Fin 100) (Fin 0.2) in
  convergence_sweep unit Fake.path_exists (Fake.engine_exit 1 "" "boom")
    Fake.json_loads Fake.float_repr Fake.float_of_str args base Fake.init
  = (Raise (RuntimeError ("risk_sim failed (option): " ++ str_or "boom" "")),
     {| world := tt;
        invocations := (invocations Fake.init
                        ++ [build_cli Fake.float_repr (args_binary args) "option"
                              (sweep_payload args base 0)])%list |}).
Proof.
  apply (sweep_aborts_on_first_failure unit Fake.path_exists
           (Fake.engine_exit 1 "" "boom") Fake.json_loads Fake.float_repr
           Fake.float_of_str (Fake.args 1000 3)
           (option_payload (Fake.args 1000 3) (Fin 100) (Fin 100) (Fin 0.2))
           Fake.init {| returncode := 1; stdout := ""; stderr := "boom" |} tt).
  - reflexivity.
  - reflexivity.
  - reflexivity.
  - discriminate.
Defined.

Lemma main_missing_binary_witness :
  main unit FakeRun.missing Fake.engine_ok FakeRun.json_loads Fake.float_repr
    Fake.float_of_str FakeRun.args [Fin 100] Fake.init
  = (Raise (SystemExit ("risk_sim binary not found at " ++ args_binary FakeRun.args
                        ++ ". Build the project first.")), Fake.init).
Proof.
  apply (main_missing_binary unit FakeRun.missing Fake.engine_ok FakeRun.json_loads
           Fake.float_repr Fake.float_of_str FakeRun.args [Fin 100] Fake.init).
  - discriminate.
  - reflexivity.
Defined.


